(** * CCISO practice engine: parser, exam assembly, scoring, time format

    A shallow embedding of the pure core of [app.py]:
    [parse_questions], [get_questions_by_domain], [select_exam_questions],
    [calculate_score] and [format_time], with the properties stated about
    them.

    Modelling conventions.
    - A Python [str] is a list of characters ([list ascii], code points
      below 256).  The character classes of [re] and [str.strip] are the
      ones Python uses on that range.
    - Python [int] is [Z]; list lengths and the quota constants are [nat].
    - An exception is [None] in the [option] monad; a [try/except] maps it
      back to a value.
    - The module-level generator of [random] is an explicit state that is
      threaded through every draw. *)

From Stdlib Require Import ZArith Ascii String SpecFloat DecimalString DecimalN.
From Stdlib Require Decimal.
From stdpp Require Import base option list strings gmap sorting.

Local Open Scope Z_scope.

Abbreviation str := (list ascii).

(** A string literal as a Python [str]. *)
Definition lit (s : string) : str := list_ascii_of_string s.

Definition newline : ascii := "010"%char.

(** ** Character classes *)

Module CharClass.

(** [\s] and [str.isspace] below code point 256:
    TAB..CR, FS..US, space, NEL and NBSP. *)
Definition space (c : ascii) : bool :=
  let n := nat_of_ascii c in
  ((9 <=? n) && (n <=? 13) || (28 <=? n) && (n <=? 32)
   || (n =? 133) || (n =? 160))%nat.

(** [\d] below code point 256. *)
Definition digit (c : ascii) : bool :=
  let n := nat_of_ascii c in ((48 <=? n) && (n <=? 57))%nat.

(** [[A-D]] *)
Definition A_to_D (c : ascii) : bool :=
  let n := nat_of_ascii c in ((65 <=? n) && (n <=? 68))%nat.

(** [.] without [re.DOTALL] *)
Definition dot (c : ascii) : bool := negb (Ascii.eqb c newline).

(** [.] with [re.DOTALL] *)
Definition dotall (c : ascii) : bool := true.

End CharClass.

(** ** String methods *)

Fixpoint strip_prefix (p s : str) : option str :=
  match p, s with
  | [], _ => Some s
  | a :: p', b :: s' => if Ascii.eqb a b then strip_prefix p' s' else None
  | _ :: _, [] => None
  end.

(** [sub in s] *)
Fixpoint contains (sub s : str) : bool :=
  match strip_prefix sub s with
  | Some _ => true
  | None => match s with
            | [] => false
            | _ :: s' => contains sub s'
            end
  end.

(** [s.replace(old, new)] for a non-empty [old]: the occurrences are
    replaced from the left, without overlap. *)
Fixpoint replace_fuel (fuel : nat) (old new s : str) : str :=
  match fuel with
  | O => s
  | S fuel' =>
      match strip_prefix old s with
      | Some s' => new ++ replace_fuel fuel' old new s'
      | None => match s with
                | [] => []
                | c :: s' => c :: replace_fuel fuel' old new s'
                end
      end
  end.

Definition replace (old new s : str) : str :=
  replace_fuel (S (length s)) old new s.

Fixpoint lstrip (s : str) : str :=
  match s with
  | c :: s' => if CharClass.space c then lstrip s' else s
  | [] => []
  end.

Definition rstrip (s : str) : str := rev (lstrip (rev s)).

(** [s.strip()] *)
Definition strip (s : str) : str := rstrip (lstrip s).

(** [int(s)] on a string of decimal digits; [None] is [ValueError].
    The parser only applies it to what a [\d+] group captured.  The
    limit that recent interpreters put on the number of digits (a
    [ValueError] too, which the parser catches like any other) is left
    out. *)
Definition digit_value (c : ascii) : option Z :=
  if CharClass.digit c then Some (Z.of_nat (nat_of_ascii c) - 48) else None.

Definition py_int (s : str) : option Z :=
  match s with
  | [] => None
  | _ => foldl (fun acc c => a ← acc; d ← digit_value c; Some (10 * a + d))
               (Some 0) s
  end.

(** ** Regular expressions

    The fragment of [re] the parser uses: literals, character classes,
    greedy and lazy repetition of a class, sequence, alternation,
    capturing groups, lookahead, [\Z] and [$].  Matching is by
    backtracking, written in continuation-passing style: the continuation
    receives the rest of the input and the groups captured so far, and a
    [None] from it makes the matcher try its next alternative. *)

Module Re.

Inductive regex : Type :=
| Lit (s : str)
| Class (p : ascii -> bool)
| Rep (greedy : bool) (least : nat) (p : ascii -> bool)
| Cat (r1 r2 : regex)
| Alt (r1 r2 : regex)
| Group (r : regex)
| Ahead (r : regex)
| EndZ
| Dollar.

(** The rest of the input after a match and the captured groups. *)
Definition result : Type := str * list str.
Definition cont : Type := str -> list str -> option result.

Definition or_else {A} (x y : option A) : option A :=
  match x with Some _ => x | None => y end.

(** [p*] and [p+]: as many characters as possible first. *)
Fixpoint rep_greedy (p : ascii -> bool) (least : nat) (s : str)
    (k : str -> option result) : option result :=
  let stop := match least with O => k s | S _ => None end in
  match s with
  | c :: s' =>
      if p c then or_else (rep_greedy p (Nat.pred least) s' k) stop
      else stop
  | [] => stop
  end.

(** [p*?] and [p+?]: as few characters as possible first. *)
Fixpoint rep_lazy (p : ascii -> bool) (least : nat) (s : str)
    (k : str -> option result) : option result :=
  let more := match s with
              | c :: s' =>
                  if p c then rep_lazy p (Nat.pred least) s' k else None
              | [] => None
              end in
  match least with
  | O => or_else (k s) more
  | S _ => more
  end.

(** [$] without [re.MULTILINE]: the end of the input, or just before a
    newline that ends it. *)
Definition at_dollar (s : str) : bool :=
  match s with
  | [] => true
  | [c] => Ascii.eqb c newline
  | _ => false
  end.

Fixpoint run (r : regex) (s : str) (caps : list str) (k : cont)
    : option result :=
  match r with
  | Lit l =>
      match strip_prefix l s with
      | Some s' => k s' caps
      | None => None
      end
  | Class p =>
      match s with
      | c :: s' => if p c then k s' caps else None
      | [] => None
      end
  | Rep true least p => rep_greedy p least s (fun s' => k s' caps)
  | Rep false least p => rep_lazy p least s (fun s' => k s' caps)
  | Cat r1 r2 => run r1 s caps (fun s' caps' => run r2 s' caps' k)
  | Alt r1 r2 => or_else (run r1 s caps k) (run r2 s caps k)
  | Group r1 =>
      run r1 s caps
        (fun s' caps' =>
           k s' (caps' ++ [take (length s - length s') s]))
  | Ahead r1 =>
      match run r1 s caps (fun s' caps' => Some (s', caps')) with
      | Some _ => k s caps
      | None => None
      end
  | EndZ => match s with [] => k s caps | _ => None end
  | Dollar => if at_dollar s then k s caps else None
  end.

(** A match anchored at the start of [s]. *)
Definition match_here (r : regex) (s : str) : option result :=
  run r s [] (fun s' caps => Some (s', caps)).

(** What [re.search] finds: the text before the leftmost match, the
    groups, and the text after the match. *)
Record found : Type :=
  { before : str; groups : list str; after : str }.

Fixpoint search (r : regex) (s : str) : option found :=
  match match_here r s with
  | Some (rest, caps) =>
      Some {| before := []; groups := caps; after := rest |}
  | None =>
      match s with
      | [] => None
      | c :: s' =>
          match search r s' with
          | Some m => Some {| before := c :: before m;
                              groups := groups m; after := after m |}
          | None => None
          end
      end
  end.

(** [m.group(n)] for [n >= 1] *)
Definition group (n : nat) (m : found) : str :=
  nth (Nat.pred n) (groups m) [].

(** [re.findall]: the groups of the successive matches, each search
    resuming where the previous match ended.  The fuel is the length of
    the input, which is enough as soon as no match is empty. *)
Fixpoint findall_fuel (fuel : nat) (r : regex) (s : str)
    : list (list str) :=
  match fuel with
  | O => []
  | S fuel' =>
      match search r s with
      | None => []
      | Some m => groups m :: findall_fuel fuel' r (after m)
      end
  end.

Definition findall (r : regex) (s : str) : list (list str) :=
  findall_fuel (length s) r s.

(** [re.split] with capturing groups: the pieces between the matches,
    interleaved with the groups of each match. *)
Fixpoint split_fuel (fuel : nat) (r : regex) (s : str) : list str :=
  match fuel with
  | O => [s]
  | S fuel' =>
      match search r s with
      | None => [s]
      | Some m => before m :: groups m ++ split_fuel fuel' r (after m)
      end
  end.

Definition split (r : regex) (s : str) : list str :=
  split_fuel (length s) r s.

(** The number of positions of [s] at which [r] matches. *)
Fixpoint count_matches (r : regex) (s : str) : nat :=
  (match match_here r s with Some _ => 1 | None => 0 end +
   match s with
   | [] => 0
   | _ :: s' => count_matches r s'
   end)%nat.

End Re.

Import Re.

(** ** The question corpus *)

Record Opt : Type :=
  { letter : str; text : str; isCorrect : bool }.

(** The key ['id'] is the field [qid]. *)
Record Question : Type :=
  { qid : Z;
    domain : str;
    domainNumber : Z;
    questionText : str;
    options : list Opt;
    excerpt : str }.

(** ** parse_questions *)

(** [----Question\s+(\d+)] *)
Definition re_marker : regex :=
  Cat (Lit (lit "----Question"))
      (Cat (Rep true 1 CharClass.space) (Group (Rep true 1 CharClass.digit))).

(** [Domain:\s*(.+?)(?:\n|$)] *)
Definition re_domain : regex :=
  Cat (Lit (lit "Domain:"))
      (Cat (Rep true 0 CharClass.space)
           (Cat (Group (Rep false 1 CharClass.dot))
                (Alt (Lit [newline]) Dollar))).

(** [Domain\s*(\d+)] *)
Definition re_domain_number : regex :=
  Cat (Lit (lit "Domain"))
      (Cat (Rep true 0 CharClass.space) (Group (Rep true 1 CharClass.digit))).

(** [label\s*(.+?)(?=\nstop|\Z)] with [re.DOTALL] *)
Definition re_field (label stop : string) : regex :=
  Cat (Lit (lit label))
      (Cat (Rep true 0 CharClass.space)
           (Cat (Group (Rep false 1 CharClass.dotall))
                (Ahead (Alt (Cat (Lit [newline]) (Lit (lit stop))) EndZ)))).

Definition re_question_text : regex := re_field "Question text:" "Options:".
Definition re_options : regex := re_field "Options:" "Excerpt from source:".
Definition re_excerpt : regex := re_field "Excerpt from source:" "----Question".

(** [([A-D])\.\s*(.+?)(?=\n[A-D]\.|$)] with [re.DOTALL] *)
Definition option_pattern : regex :=
  Cat (Group (Class CharClass.A_to_D))
      (Cat (Lit (lit "."))
           (Cat (Rep true 0 CharClass.space)
                (Cat (Group (Rep false 1 CharClass.dotall))
                     (Ahead (Alt (Cat (Lit [newline])
                                      (Cat (Class CharClass.A_to_D)
                                           (Lit (lit "."))))
                                 Dollar))))).

Definition CORRECT : str := lit "[CORRECT]".

(** The body of [for letter, text in option_matches]. *)
Definition make_option (m : list str) : Opt :=
  let letter := nth 0 m [] in
  let text := strip (nth 1 m []) in
  let is_correct := contains CORRECT text in
  let clean_text := strip (replace CORRECT [] text) in
  {| letter := letter; text := clean_text; isCorrect := is_correct |}.

(** [m.group(1).strip() if m else ""] *)
Definition stripped_group (m : option found) : str :=
  match m with
  | Some m => strip (group 1 m)
  | None => []
  end.

(** The body of the [try] for one [(id, block)] pair.  The outer [option]
    is the exception ([None] when a statement raises); the inner one is
    the question appended to [questions], if any. *)
Definition parse_block (id_text block : str) : option (option Question) :=
  question_id ← py_int id_text;
  match search re_domain block with
  | None => Some None
  | Some domain_match =>
      let domain_text := strip (group 1 domain_match) in
      domain_number ←
        match search re_domain_number domain_text with
        | Some m => py_int (group 1 m)
        | None => Some 0
        end;
      let question_text := stripped_group (search re_question_text block) in
      let options_text := stripped_group (search re_options block) in
      let options := map make_option (findall option_pattern options_text) in
      let excerpt := stripped_group (search re_excerpt block) in
      if bool_decide (question_text ≠ []) && bool_decide (options ≠ [])
      then Some (Some {| qid := question_id;
                         domain := domain_text;
                         domainNumber := domain_number;
                         questionText := question_text;
                         options := options;
                         excerpt := excerpt |})
      else Some None
  end.

(** [except Exception]: the block is passed over. *)
Definition block_questions (id_text block : str) : list Question :=
  match parse_block id_text block with
  | Some (Some q) => [q]
  | Some None => []
  | None => []
  end.

(** The [while] loop, on [question_blocks[1:]]: [i] advances by two, and a
    missing [question_blocks[i + 1]] is the empty string. *)
Fixpoint blocks_loop (blocks : list str) : list Question :=
  match blocks with
  | [] => []
  | [id_text] => block_questions id_text []
  | id_text :: block :: rest => block_questions id_text block ++ blocks_loop rest
  end.

Definition parse_questions (content : str) : list Question :=
  let question_blocks := split re_marker content in
  blocks_loop (tail question_blocks).

(** ** The random source

    [random.sample] and [random.shuffle] read the generator of the
    [random] module.  Its state is modelled as the sequence of raw draws
    still to come, so that a property proved for every state holds for
    every run.  [sample] returns elements at pairwise distinct positions
    of the population, and raises [ValueError] when asked for more than
    there are. *)

Module Random.

Definition state : Type := list nat.

(** An index below [n] (for [0 < n]) and the next state. *)
Definition randbelow (n : nat) (g : state) : nat * state :=
  match g with
  | [] => (O, [])
  | r :: g' => (r mod n, g')%nat
  end.

(** [k] draws without replacement. *)
Fixpoint draw {A} (k : nat) (pool : list A) (g : state) : list A * state :=
  match k with
  | O => ([], g)
  | S k' =>
      let '(j, g1) := randbelow (length pool) g in
      match pool !! j with
      | Some x =>
          let '(xs, g2) := draw k' (delete j pool) g1 in (x :: xs, g2)
      | None => ([], g1)
      end
  end.

Definition sample {A} (population : list A) (k : nat) (g : state)
    : option (list A * state) :=
  if decide (k ≤ length population)%nat
  then Some (draw k population g)
  else None.

Definition shuffle {A} (x : list A) (g : state) : list A * state :=
  draw (length x) x g.

End Random.

(** ** Exam assembly *)

Definition EXAM_DISTRIBUTION : list (Z * nat) :=
  [(1, 32%nat); (2, 30%nat); (3, 32%nat); (4, 29%nat); (5, 29%nat)].

Definition TOTAL_EXAM_QUESTIONS : nat := 152.
Definition PASSING_PERCENTAGE : Z := 80.

Definition get_questions_by_domain (questions : list Question) (domain : Z)
    : list Question :=
  filter (fun q => domainNumber q = domain) questions.

(** [[q for q in questions if q['domainNumber'] != domain]] *)
Definition questions_outside (questions : list Question) (domain : Z)
    : list Question :=
  filter (fun q => domainNumber q ≠ domain) questions.

(** The [for domain, count in EXAM_DISTRIBUTION.items()] loop, with the
    list [selected] and the generator state passed along. *)
Fixpoint select_loop (questions : list Question) (distribution : list (Z * nat))
    (selected : list Question) (g : Random.state)
    : option (list Question * Random.state) :=
  match distribution with
  | [] => Some (selected, g)
  | (domain, count) :: distribution' =>
      let domain_questions := get_questions_by_domain questions domain in
      if decide (count ≤ length domain_questions)%nat then
        '(picked, g1) ← Random.sample domain_questions count g;
        select_loop questions distribution' (selected ++ picked) g1
      else
        let selected1 := selected ++ domain_questions in
        let remaining := (count - length domain_questions)%nat in
        let other_questions := questions_outside questions domain in
        match other_questions with
        | _ :: _ =>
            '(picked, g1) ←
              Random.sample other_questions
                (remaining `min` length other_questions) g;
            select_loop questions distribution' (selected1 ++ picked) g1
        | [] => select_loop questions distribution' selected1 g
        end
  end.

Definition select_exam_questions (questions : list Question)
    (g : Random.state) : option (list Question * Random.state) :=
  '(selected, g1) ← select_loop questions EXAM_DISTRIBUTION [] g;
  Some (Random.shuffle selected g1).

(** ** Scoring *)

(** The values an answer map holds: a letter, or [None]. *)
Inductive answer : Type :=
| PyNone
| PyStr (s : str).

#[global] Instance answer_eq_dec : EqDecision answer.
Proof. solve_decision. Defined.

Definition truthy (a : answer) : bool :=
  match a with
  | PyNone => false
  | PyStr s => bool_decide (s ≠ [])
  end.

(** [user_answers.get(i)] *)
Definition get_answer (user_answers : gmap Z answer) (i : nat) : answer :=
  default PyNone (user_answers !! Z.of_nat i).

(** The test that guards [correct += 1]. *)
Definition credited (question : Question) (user_answer : answer) : bool :=
  truthy user_answer &&
  match find isCorrect (options question) with
  | Some correct_option =>
      bool_decide (user_answer = PyStr (letter correct_option))
  | None => false
  end.

(** [enumerate(l, start)] *)
Definition enumerate {A} (start : nat) (l : list A) : list (nat * A) :=
  zip (seq start (length l)) l.

(** [for i, question in enumerate(exam_questions)], from index [i] on. *)
Fixpoint score_loop (user_answers : gmap Z answer) (i : nat)
    (exam_questions : list Question) (correct : Z) : Z :=
  match exam_questions with
  | [] => correct
  | question :: rest =>
      let user_answer := get_answer user_answers i in
      score_loop user_answers (S i) rest
        (if credited question user_answer then correct + 1 else correct)
  end.

(** Python numbers: [percentage] is the [int] 0 or a [float].  Floats are
    IEEE 754 binary64 values. *)
Inductive number : Type :=
| Int (z : Z)
| Float (f : spec_float).

Module Float64.

Definition prec : Z := 53.
Definition emax : Z := 1024.

(** [float(z)], rounded to nearest even. *)
Definition of_int (z : Z) : spec_float := binary_normalize prec emax z 0 false.

(** [a / b] on integers; [None] is [ZeroDivisionError].  Both operands
    are converted exactly as long as they are below [2^53]. *)
Definition truediv (a b : Z) : option spec_float :=
  if decide (b = 0) then None
  else Some (SFdiv prec emax (of_int a) (of_int b)).

(** [x * z] for a float [x] and an integer [z] *)
Definition mul_int (x : spec_float) (z : Z) : spec_float :=
  SFmul prec emax x (of_int z).

End Float64.

(** [x >= z] for an integer [z] *)
Definition number_ge (x : number) (z : Z) : bool :=
  match x with
  | Int a => z <=? a
  | Float f => SFleb (Float64.of_int z) f
  end.

Definition calculate_score (exam_questions : list Question)
    (user_answers : gmap Z answer) : option (Z * Z * number * bool) :=
  let correct := score_loop user_answers 0 exam_questions 0 in
  let total := Z.of_nat (length exam_questions) in
  percentage ←
    (if decide (0 < total)
     then q ← Float64.truediv correct total;
          Some (Float (Float64.mul_int q 100))
     else Some (Int 0));
  let passed := number_ge percentage PASSING_PERCENTAGE in
  Some (correct, total, percentage, passed).

(** ** Time format *)

(** [str(n)] for [0 <= n] *)
Definition decimal (n : Z) : str :=
  lit (NilZero.string_of_uint (N.to_uint (Z.to_N n))).

(** [f"{n:02d}"]: zeros are added up to a width of two; the sign counts
    in the width. *)
Definition format_02d (n : Z) : str :=
  if n <? 0 then "-"%char :: decimal (- n)
  else
    let digits := decimal n in
    if (length digits <? 2)%nat then "0"%char :: digits else digits.

Definition format_time (seconds : Z) : str :=
  let minutes := seconds / 60 in
  let secs := seconds mod 60 in
  format_02d minutes ++ lit ":" ++ format_02d secs.

(** ** Derived notions and example data *)

(** [correct / total * 100] for a total that is not zero. *)
Definition percentage_of (correct total : Z) : number :=
  Float (Float64.mul_int
           (SFdiv Float64.prec Float64.emax
              (Float64.of_int correct) (Float64.of_int total))
           100).

(** A question whose correct letter is B, and the answer map that
    answers B at the first [n] positions. *)
Definition question_B : Question :=
  {| qid := 1; domain := lit "Domain 1"; domainNumber := 1;
     questionText := lit "q";
     options := [ {| letter := lit "A"; text := lit "a"; isCorrect := false |};
                  {| letter := lit "B"; text := lit "b"; isCorrect := true |} ];
     excerpt := [] |}.

Definition answers_B (n : nat) : gmap Z answer :=
  list_to_map ((λ i, (Z.of_nat i, PyStr (lit "B"))) <$> seq 0 n).

(** A question with two options marked correct. *)
Definition question_two_marked : Question :=
  {| qid := 2; domain := lit "Domain 1"; domainNumber := 1;
     questionText := lit "q";
     options := [ {| letter := lit "A"; text := lit "a"; isCorrect := false |};
                  {| letter := lit "B"; text := lit "b"; isCorrect := true |};
                  {| letter := lit "C"; text := lit "c"; isCorrect := true |} ];
     excerpt := [] |}.

(** The character of a decimal digit. *)
Definition digit_char (d : Z) : ascii := ascii_of_nat (48 + Z.to_nat d).

(** What one pass of the loop appends for an entry of the quota table:
    [count] questions of the domain when it has that many; otherwise the
    whole domain, followed by extras drawn from the questions outside the
    domain, as many as are missing or as there are. *)
Definition contribution (questions : list Question) (entry : Z * nat)
    (pick : list Question) : Prop :=
  let pool := get_questions_by_domain questions entry.1 in
  let others := questions_outside questions entry.1 in
  if decide (entry.2 ≤ length pool)%nat
  then pick ⊆+ pool ∧ length pick = entry.2
  else ∃ extras,
      pick = pool ++ extras
      ∧ extras ⊆+ others
      ∧ length extras = ((entry.2 - length pool) `min` length others)%nat.

(** The number of questions a domain is short of its quota. *)
Definition shortfall (questions : list Question) (entry : Z * nat) : nat :=
  (entry.2 - length (get_questions_by_domain questions entry.1))%nat.

Definition total_shortfall (questions : list Question) : nat :=
  sum_list (shortfall questions <$> EXAM_DISTRIBUTION).

(** The number of questions a pass appends. *)
Definition contribution_size (questions : list Question) (entry : Z * nat)
    : nat :=
  let pool := get_questions_by_domain questions entry.1 in
  let others := questions_outside questions entry.1 in
  if decide (entry.2 ≤ length pool)%nat then entry.2
  else (length pool + (entry.2 - length pool) `min` length others)%nat.

(** Corpora for the examples: [n] questions of domain [d], numbered from
    [first]. *)
Definition domain_questions (d : Z) (first : Z) (n : nat) : list Question :=
  (λ i, {| qid := first + Z.of_nat i; domain := lit "Domain";
           domainNumber := d; questionText := lit "q";
           options := []; excerpt := [] |}) <$> seq 0 n.

(** A corpus in which every domain of the table holds its quota. *)
Definition corpus_full : list Question :=
  domain_questions 1 100 33 ++ domain_questions 2 200 30
  ++ domain_questions 3 300 32 ++ domain_questions 4 400 29
  ++ domain_questions 5 500 40 ++ domain_questions 0 0 2.

(** A corpus of 29 questions, all of domain 1. *)
Definition corpus_29 : list Question := domain_questions 1 100 29.

(** A corpus in which domain 1 is one question short and domain 4 two. *)
Definition corpus_short : list Question :=
  domain_questions 1 100 31 ++ domain_questions 2 200 35
  ++ domain_questions 3 300 32 ++ domain_questions 4 400 27
  ++ domain_questions 5 500 29.

(** The [(id, block)] pairs the loop goes through. *)
Fixpoint pairs (blocks : list str) : list (str * str) :=
  match blocks with
  | [] => []
  | [id_text] => [(id_text, [])]
  | id_text :: block :: rest => (id_text, block) :: pairs rest
  end.

Definition record_blocks (content : str) : list (str * str) :=
  pairs (tail (split re_marker content)).

(** Each line followed by a newline. *)
Definition lines (ls : list string) : str :=
  ls ≫= (λ l, lit l ++ [newline]).

(** The record of the specification's round trip. *)
Definition sample_record : str :=
  lines [ "----Question 1"; "Domain: Domain 2: X";
          "Question text: What is X?"; "Options:"; "A. foo";
          "B. bar [CORRECT]"; "C. baz"; "Excerpt from source: src" ]%string.

(** The question it holds. *)
Definition sample_question : Question :=
  {| qid := 1;
     domain := lit "Domain 2: X";
     domainNumber := 2;
     questionText := lit "What is X?";
     options :=
       [ {| letter := lit "A"; text := lit "foo"; isCorrect := false |};
         {| letter := lit "B"; text := lit "bar"; isCorrect := true |};
         {| letter := lit "C"; text := lit "baz"; isCorrect := false |} ];
     excerpt := lit "src" |}.

(** A record whose domain line carries the given label. *)
Definition record_of_domain (label : string) : str :=
  lines [ "----Question 1"; ("Domain: " ++ label)%string;
          "Question text: What is X?"; "Options:"; "A. foo" ]%string.

(** ** Callers of the core *)

(** [render_study_setup]: the questions of a study session, drawn from
    the chosen domain when the session starts. *)
Definition select_study_questions (questions : list Question)
    (domain_number : Z) (study_num_questions : nat) (g : Random.state)
    : option (list Question * Random.state) :=
  let domain_questions := get_questions_by_domain questions domain_number in
  Random.sample domain_questions study_num_questions g.

(** [render_main_menu]: the table [domain_counts], filled by
    [domain_counts[d] = domain_counts.get(d, 0) + 1]. *)
Definition count_question (domain_counts : gmap Z nat) (q : Question)
    : gmap Z nat :=
  let d := domainNumber q in
  <[d := (default 0%nat (domain_counts !! d) + 1)%nat]> domain_counts.

Definition domain_counts (questions : list Question) : gmap Z nat :=
  foldl count_question ∅ questions.

(** The lines of the breakdown, [for domain in sorted(domain_counts.keys())]. *)
Definition domain_breakdown (questions : list Question) : list (Z * nat) :=
  let counts := domain_counts questions in
  (λ domain, (domain, default 0%nat (counts !! domain)))
    <$> merge_sort Z.le (elements (dom counts)).

(** A corpus of 32 questions, all of domain 1. *)
Definition corpus_32 : list Question := domain_questions 1 100 32.

(** [render_review]: the test that puts the check mark in the header
    of a question,
    [user_answer == correct_option['letter'] if correct_option and user_answer else False]. *)
Definition review_is_correct (question : Question) (user_answer : answer)
    : bool :=
  match find isCorrect (options question) with
  | Some correct_option =>
      if truthy user_answer
      then bool_decide (user_answer = PyStr (letter correct_option))
      else false
  | None => false
  end.

(** [render_study_mode]: the test made when an answer is submitted,
    [selected_letter == correct_option['letter'] if correct_option else False]. *)
Definition study_is_correct (question : Question) (selected_letter : str)
    : bool :=
  match find isCorrect (options question) with
  | Some correct_option => bool_decide (selected_letter = letter correct_option)
  | None => false
  end.

Definition PASSING_SCORE : Z := 122.

(** No white space at either end. *)
Definition trimmed (s : str) : Prop :=
  (∀ c, head s = Some c → CharClass.space c = false)
  ∧ (∀ c, last s = Some c → CharClass.space c = false).

(** ** The domain selector of [render_study_setup] *)

Definition DOMAIN_NAMES : gmap Z string :=
  list_to_map
    [ (1, "Governance, Risk, and Compliance");
      (2, "Information Security Controls and Audit Management");
      (3, "Security Program Management and Operations");
      (4, "Information Security Core Competencies");
      (5, "Strategic Planning, Finance, Procurement, and Vendor Management")
    ]%string.

(** [f"Domain {i}: {name}"], for [0 <= i] *)
Definition domain_option (i : Z) (name : str) : str :=
  lit "Domain " ++ decimal i ++ lit ": " ++ name.

(** [[f"Domain {i}: {DOMAIN_NAMES[i]}" for i in range(1, 6)]]; [None] is
    [KeyError]. *)
Definition domain_options : option (list str) :=
  mapM (λ i, name ← DOMAIN_NAMES !! i; Some (domain_option i (lit name)))
       [1; 2; 3; 4; 5].

(** [s.split(sep)[0]] for a separator of one character *)
Fixpoint before_sep (sep : ascii) (s : str) : str :=
  match s with
  | [] => []
  | c :: s' => if Ascii.eqb c sep then [] else c :: before_sep sep s'
  end.

(** [int(selected_domain.split(":")[0].replace("Domain ", ""))] *)
Definition selected_domain_number (selected_domain : str) : option Z :=
  py_int (replace (lit "Domain ") [] (before_sep ":"%char selected_domain)).

(** ** The session and its screens

    [st.session_state] is a record of the values [initialize_session_state]
    creates.  A run of the script is one step: the widgets report the
    value of the radio and at most one pressed button; a button that is
    not drawn, or is disabled, reports nothing; [st.rerun()] ends the run.
    A date is a number of microseconds. *)

Module Session.

(** The values of [mode]: ['main'], ['practice_exam'], ['study_setup'],
    ['study']. *)
Inductive mode_name : Type := Main | PracticeExam | StudySetup | Study.

Record t : Type :=
  { questions : list Question;
    mode : mode_name;
    exam_questions : list Question;
    current_question_index : Z;
    user_answers : gmap Z answer;
    exam_start_time : option Z;
    exam_end_time : option Z;
    show_results : bool;
    show_review : bool;
    study_domain : Z;
    study_num_questions : Z;
    show_feedback : bool;
    current_answer_correct : option bool;
    file_uploaded : bool;
    show_exit_confirm : bool }.

Definition set_mode (v : mode_name) (s : t) : t :=
  {| questions := questions s;
     mode := v;
     exam_questions := exam_questions s;
     current_question_index := current_question_index s;
     user_answers := user_answers s;
     exam_start_time := exam_start_time s;
     exam_end_time := exam_end_time s;
     show_results := show_results s;
     show_review := show_review s;
     study_domain := study_domain s;
     study_num_questions := study_num_questions s;
     show_feedback := show_feedback s;
     current_answer_correct := current_answer_correct s;
     file_uploaded := file_uploaded s;
     show_exit_confirm := show_exit_confirm s |}.

Definition set_exam_questions (v : list Question) (s : t) : t :=
  {| questions := questions s;
     mode := mode s;
     exam_questions := v;
     current_question_index := current_question_index s;
     user_answers := user_answers s;
     exam_start_time := exam_start_time s;
     exam_end_time := exam_end_time s;
     show_results := show_results s;
     show_review := show_review s;
     study_domain := study_domain s;
     study_num_questions := study_num_questions s;
     show_feedback := show_feedback s;
     current_answer_correct := current_answer_correct s;
     file_uploaded := file_uploaded s;
     show_exit_confirm := show_exit_confirm s |}.

Definition set_current_question_index (v : Z) (s : t) : t :=
  {| questions := questions s;
     mode := mode s;
     exam_questions := exam_questions s;
     current_question_index := v;
     user_answers := user_answers s;
     exam_start_time := exam_start_time s;
     exam_end_time := exam_end_time s;
     show_results := show_results s;
     show_review := show_review s;
     study_domain := study_domain s;
     study_num_questions := study_num_questions s;
     show_feedback := show_feedback s;
     current_answer_correct := current_answer_correct s;
     file_uploaded := file_uploaded s;
     show_exit_confirm := show_exit_confirm s |}.

Definition set_user_answers (v : gmap Z answer) (s : t) : t :=
  {| questions := questions s;
     mode := mode s;
     exam_questions := exam_questions s;
     current_question_index := current_question_index s;
     user_answers := v;
     exam_start_time := exam_start_time s;
     exam_end_time := exam_end_time s;
     show_results := show_results s;
     show_review := show_review s;
     study_domain := study_domain s;
     study_num_questions := study_num_questions s;
     show_feedback := show_feedback s;
     current_answer_correct := current_answer_correct s;
     file_uploaded := file_uploaded s;
     show_exit_confirm := show_exit_confirm s |}.

Definition set_exam_start_time (v : option Z) (s : t) : t :=
  {| questions := questions s;
     mode := mode s;
     exam_questions := exam_questions s;
     current_question_index := current_question_index s;
     user_answers := user_answers s;
     exam_start_time := v;
     exam_end_time := exam_end_time s;
     show_results := show_results s;
     show_review := show_review s;
     study_domain := study_domain s;
     study_num_questions := study_num_questions s;
     show_feedback := show_feedback s;
     current_answer_correct := current_answer_correct s;
     file_uploaded := file_uploaded s;
     show_exit_confirm := show_exit_confirm s |}.

Definition set_exam_end_time (v : option Z) (s : t) : t :=
  {| questions := questions s;
     mode := mode s;
     exam_questions := exam_questions s;
     current_question_index := current_question_index s;
     user_answers := user_answers s;
     exam_start_time := exam_start_time s;
     exam_end_time := v;
     show_results := show_results s;
     show_review := show_review s;
     study_domain := study_domain s;
     study_num_questions := study_num_questions s;
     show_feedback := show_feedback s;
     current_answer_correct := current_answer_correct s;
     file_uploaded := file_uploaded s;
     show_exit_confirm := show_exit_confirm s |}.

Definition set_show_results (v : bool) (s : t) : t :=
  {| questions := questions s;
     mode := mode s;
     exam_questions := exam_questions s;
     current_question_index := current_question_index s;
     user_answers := user_answers s;
     exam_start_time := exam_start_time s;
     exam_end_time := exam_end_time s;
     show_results := v;
     show_review := show_review s;
     study_domain := study_domain s;
     study_num_questions := study_num_questions s;
     show_feedback := show_feedback s;
     current_answer_correct := current_answer_correct s;
     file_uploaded := file_uploaded s;
     show_exit_confirm := show_exit_confirm s |}.

Definition set_show_review (v : bool) (s : t) : t :=
  {| questions := questions s;
     mode := mode s;
     exam_questions := exam_questions s;
     current_question_index := current_question_index s;
     user_answers := user_answers s;
     exam_start_time := exam_start_time s;
     exam_end_time := exam_end_time s;
     show_results := show_results s;
     show_review := v;
     study_domain := study_domain s;
     study_num_questions := study_num_questions s;
     show_feedback := show_feedback s;
     current_answer_correct := current_answer_correct s;
     file_uploaded := file_uploaded s;
     show_exit_confirm := show_exit_confirm s |}.



Definition set_show_feedback (v : bool) (s : t) : t :=
  {| questions := questions s;
     mode := mode s;
     exam_questions := exam_questions s;
     current_question_index := current_question_index s;
     user_answers := user_answers s;
     exam_start_time := exam_start_time s;
     exam_end_time := exam_end_time s;
     show_results := show_results s;
     show_review := show_review s;
     study_domain := study_domain s;
     study_num_questions := study_num_questions s;
     show_feedback := v;
     current_answer_correct := current_answer_correct s;
     file_uploaded := file_uploaded s;
     show_exit_confirm := show_exit_confirm s |}.

Definition set_current_answer_correct (v : option bool) (s : t) : t :=
  {| questions := questions s;
     mode := mode s;
     exam_questions := exam_questions s;
     current_question_index := current_question_index s;
     user_answers := user_answers s;
     exam_start_time := exam_start_time s;
     exam_end_time := exam_end_time s;
     show_results := show_results s;
     show_review := show_review s;
     study_domain := study_domain s;
     study_num_questions := study_num_questions s;
     show_feedback := show_feedback s;
     current_answer_correct := v;
     file_uploaded := file_uploaded s;
     show_exit_confirm := show_exit_confirm s |}.

Definition set_show_exit_confirm (v : bool) (s : t) : t :=
  {| questions := questions s;
     mode := mode s;
     exam_questions := exam_questions s;
     current_question_index := current_question_index s;
     user_answers := user_answers s;
     exam_start_time := exam_start_time s;
     exam_end_time := exam_end_time s;
     show_results := show_results s;
     show_review := show_review s;
     study_domain := study_domain s;
     study_num_questions := study_num_questions s;
     show_feedback := show_feedback s;
     current_answer_correct := current_answer_correct s;
     file_uploaded := file_uploaded s;
     show_exit_confirm := v |}.

End Session.

Definition EXAM_DURATION_MINUTES : Z := 150.

(** [timedelta(minutes=m)] *)
Definition minutes_us (m : Z) : Z := m * 60 * 1000000.

(** [l[i]]: a negative index counts from the end; [None] is
    [IndexError]. *)
Definition py_index {A} (l : list A) (i : Z) : option A :=
  if decide (0 ≤ i) then l !! Z.to_nat i
  else if decide (- Z.of_nat (length l) ≤ i)
       then l !! Z.to_nat (Z.of_nat (length l) + i)
       else None.

(** [selected[0] if selected else None] *)
Definition selected_letter_of (selected : option str) : answer :=
  match selected with
  | Some (c :: _) => PyStr [c]
  | _ => PyNone
  end.

(** [start_practice_exam], with the two readings of the clock. *)
Definition start_practice_exam (s : Session.t) (g : Random.state)
    (now1 now2 : Z) : option (Session.t * Random.state) :=
  '(exam, g') ← select_exam_questions (Session.questions s) g;
  Some (Session.set_mode Session.PracticeExam
          (Session.set_show_exit_confirm false
             (Session.set_show_review false
                (Session.set_show_results false
                   (Session.set_exam_end_time
                      (Some (now2 + minutes_us EXAM_DURATION_MINUTES))
                      (Session.set_exam_start_time (Some now1)
                         (Session.set_user_answers ∅
                            (Session.set_current_question_index 0
                               (Session.set_exam_questions exam s)))))))),
        g').

(** The buttons of the practice exam. *)
Inductive practice_button : Type := Previous | Submit | Next | Finish.

(** [user_answers[current_idx] = selected_letter] *)
Definition record_answer (selected_letter : answer) (s : Session.t)
    : Session.t :=
  Session.set_user_answers
    (<[Session.current_question_index s := selected_letter]>
       (Session.user_answers s)) s.

(** [if selected_letter: user_answers[current_idx] = selected_letter] *)
Definition record_if_selected (selected_letter : answer) (s : Session.t)
    : Session.t :=
  if truthy selected_letter then record_answer selected_letter s else s.

(** The checks every question screen makes before it draws the question:
    the division [(current_idx + 1) / total], the range [st.progress]
    accepts, and [exam_questions[current_idx]].  [None] is the exception
    raised. *)
Definition current_question (s : Session.t) : option Question :=
  let current_idx := Session.current_question_index s in
  let total := Z.of_nat (length (Session.exam_questions s)) in
  if decide (total = 0) then None
  else if decide (0 ≤ current_idx + 1 ≤ total)
       then py_index (Session.exam_questions s) current_idx
       else None.

(** One run of [render_practice_exam]: [remaining_time] is what
    [get_remaining_time] returned, [selected] the value of the radio. *)
Definition render_practice_exam (s : Session.t) (remaining_time : Z)
    (selected : option str) (clicked : option practice_button)
    : option Session.t :=
  if decide (remaining_time ≤ 0) then Some (Session.set_show_results true s)
  else
    let current_idx := Session.current_question_index s in
    let total := Z.of_nat (length (Session.exam_questions s)) in
    question ← current_question s;
    let selected_letter := selected_letter_of selected in
    match clicked with
    | Some Previous =>
        if decide (current_idx > 0)
        then Some (Session.set_current_question_index (current_idx - 1)
                     (record_if_selected selected_letter s))
        else Some s
    | Some Submit =>
        match selected_letter with
        | PyNone => Some s
        | _ =>
            let s1 := record_answer selected_letter s in
            if decide (current_idx = total - 1)
            then Some (Session.set_show_results true s1)
            else Some (Session.set_current_question_index (current_idx + 1) s1)
        end
    | Some Next =>
        if decide (current_idx < total - 1)
        then Some (Session.set_current_question_index (current_idx + 1)
                     (record_if_selected selected_letter s))
        else Some s
    | Some Finish =>
        Some (Session.set_show_results true
                (record_if_selected selected_letter s))
    | None => Some s
    end.

(** What one run of the practice exam receives. *)
Record practice_input : Type :=
  { remaining_time : Z;
    selected : option str;
    clicked : option practice_button }.

(** The runs of a practice exam: [main] shows the exam until
    [show_results] is set. *)
Fixpoint practice_exam_runs (s : Session.t) (inputs : list practice_input)
    : option Session.t :=
  match inputs with
  | [] => Some s
  | input :: inputs' =>
      if Session.show_results s then Some s
      else
        s' ← render_practice_exam s (remaining_time input) (selected input)
               (clicked input);
        practice_exam_runs s' inputs'
  end.

(** The index is a position of the exam set. *)
Definition index_in_range (s : Session.t) : Prop :=
  0 ≤ Session.current_question_index s
  < Z.of_nat (length (Session.exam_questions s)).

(** The answer map holds letters at positions of the exam set. *)
Definition answers_in_range (s : Session.t) : Prop :=
  ∀ k a, Session.user_answers s !! k = Some a →
         0 ≤ k < Z.of_nat (length (Session.exam_questions s))
         ∧ truthy a = true.

(** A session on the second of three questions, the first one answered. *)
Definition session_example : Session.t :=
  {| Session.questions := replicate 3 question_B;
     Session.mode := Session.PracticeExam;
     Session.exam_questions := replicate 3 question_B;
     Session.current_question_index := 1;
     Session.user_answers := answers_B 1;
     Session.exam_start_time := Some 0;
     Session.exam_end_time := Some (minutes_us EXAM_DURATION_MINUTES);
     Session.show_results := false;
     Session.show_review := false;
     Session.study_domain := 1;
     Session.study_num_questions := 10;
     Session.show_feedback := false;
     Session.current_answer_correct := None;
     Session.file_uploaded := true;
     Session.show_exit_confirm := false |}.

(** The buttons of the study screen. *)
Inductive study_button : Type :=
| StudySubmit | NextQuestion | ViewResults | ReturnToMenu | YesExit
| NoContinue.


(** One run of [render_study_mode]. *)
Definition render_study_mode (s : Session.t) (selected : option str)
    (clicked : option study_button) : option Session.t :=
  let current_idx := Session.current_question_index s in
  let total := Z.of_nat (length (Session.exam_questions s)) in
  question ← current_question s;
  let rerun : option Session.t :=
    if Session.show_feedback s then
      if decide (current_idx < total - 1) then
        match clicked with
        | Some NextQuestion =>
            Some (Session.set_current_answer_correct None
                    (Session.set_show_feedback false
                       (Session.set_current_question_index (current_idx + 1)
                          s)))
        | _ => None
        end
      else
        match clicked with
        | Some ViewResults => Some (Session.set_show_results true s)
        | _ => None
        end
    else
      match selected_letter_of selected, clicked with
      | PyStr selected_letter, Some StudySubmit =>
          let is_correct := study_is_correct question selected_letter in
          Some (Session.set_show_feedback true
                  (Session.set_current_answer_correct (Some is_correct)
                     (record_answer (PyStr selected_letter) s)))
      | _, _ => None
      end in
  match rerun with
  | Some s' => Some s'
  | None =>
      if Session.show_exit_confirm s then
        match clicked with
        | Some YesExit =>
            Some (Session.set_show_exit_confirm false
                    (Session.set_show_feedback false
                       (Session.set_mode Session.Main s)))
        | Some NoContinue => Some (Session.set_show_exit_confirm false s)
        | _ => Some s
        end
      else
        match clicked with
        | Some ReturnToMenu => Some (Session.set_show_exit_confirm true s)
        | _ => Some s
        end
  end.

(** In a study session the answered positions are the ones before the
    current one, and the current one while its feedback is shown. *)
Definition answered_so_far (s : Session.t) : Prop :=
  ∀ k, is_Some (Session.user_answers s !! k) →
       k < Session.current_question_index s
       ∨ (k = Session.current_question_index s
          ∧ Session.show_feedback s = true).

(** The feedback shown says what the score will count. *)
Definition feedback_matches_score (s : Session.t) : Prop :=
  Session.show_feedback s = true →
  ∃ question,
    py_index (Session.exam_questions s) (Session.current_question_index s)
    = Some question
    ∧ Session.current_answer_correct s
      = Some (credited question
                (default PyNone
                   (Session.user_answers s
                      !! Session.current_question_index s))).

Definition study_session_ok (s : Session.t) : Prop :=
  index_in_range s ∧ answers_in_range s ∧ answered_so_far s
  ∧ feedback_matches_score s.

(** * Properties *)

(** ** Scoring *)

Section Scoring.

Implicit Types (user_answers : gmap Z answer) (question : Question).
Implicit Types (exam_questions before after : list Question).

Lemma score_loop_acc user_answers exam_questions i correct :
  score_loop user_answers i exam_questions correct
  = correct + score_loop user_answers i exam_questions 0.
Proof.
  revert i correct.
  induction exam_questions as [|question rest IH]; intros i correct; simpl.
  - lia.
  - destruct (credited question (get_answer user_answers i)).
    + rewrite (IH _ (correct + 1)), (IH _ (0 + 1)). lia.
    + apply IH.
Qed.

Lemma score_loop_app user_answers before after i correct :
  score_loop user_answers i (before ++ after) correct
  = score_loop user_answers (i + length before) after
      (score_loop user_answers i before correct).
Proof.
  revert i correct.
  induction before as [|question rest IH]; intros i correct; simpl.
  - by rewrite Nat.add_0_r.
  - rewrite IH. by replace (S i + length rest)%nat with (i + S (length rest))%nat by lia.
Qed.

(** The counter after the loop, split at one position. *)
Lemma score_loop_split user_answers before question after :
  score_loop user_answers 0 (before ++ question :: after) 0
  = score_loop user_answers 0 before 0
    + (if credited question (get_answer user_answers (length before))
       then 1 else 0)
    + score_loop user_answers (S (length before)) after 0.
Proof.
  rewrite score_loop_app. simpl.
  rewrite score_loop_acc.
  destruct (credited question _); lia.
Qed.

(** The loop only reads the entries at the positions it visits. *)
Lemma score_loop_ext user_answers1 user_answers2 exam_questions i correct :
  (∀ j question, (i ≤ j < i + length exam_questions)%nat →
     credited question (get_answer user_answers1 j)
     = credited question (get_answer user_answers2 j)) →
  score_loop user_answers1 i exam_questions correct
  = score_loop user_answers2 i exam_questions correct.
Proof.
  revert i correct.
  induction exam_questions as [|question rest IH]; intros i correct H; simpl.
  - done.
  - rewrite (H i question) by (simpl; lia).
    apply IH. intros j q Hj. apply H. simpl. lia.
Qed.

(** The counter is the number of credited positions. *)
Lemma score_loop_count user_answers exam_questions i :
  score_loop user_answers i exam_questions 0
  = Z.of_nat (length (filter
      (λ iq, credited iq.2 (get_answer user_answers iq.1) = true)
      (enumerate i exam_questions))).
Proof.
  revert i.
  induction exam_questions as [|question rest IH]; intros i; [done|].
  cbn [score_loop]. rewrite score_loop_acc, IH.
  unfold enumerate. cbn [length seq zip zip_with].
  rewrite filter_cons. cbn [fst snd].
  destruct (credited question (get_answer user_answers i)).
  - rewrite decide_True by done. cbn [length]. lia.
  - rewrite decide_False by done. lia.
Qed.

Lemma calculate_score_some exam_questions user_answers :
  ∃ percentage,
    calculate_score exam_questions user_answers
    = Some (score_loop user_answers 0 exam_questions 0,
            Z.of_nat (length exam_questions), percentage,
            number_ge percentage PASSING_PERCENTAGE)
    ∧ percentage
      = if decide (0 < Z.of_nat (length exam_questions))
        then percentage_of (score_loop user_answers 0 exam_questions 0)
               (Z.of_nat (length exam_questions))
        else Int 0.
Proof.
  unfold calculate_score.
  destruct (decide (0 < Z.of_nat (length exam_questions))) as [Hpos|Hzero].
  - unfold Float64.truediv. rewrite decide_False by lia.
    eexists. split; reflexivity.
  - eexists. split; reflexivity.
Qed.

(** Rounding does not move the pass mark: up to the size of a practice
    exam, [percentage >= 80] holds exactly when [correct / total] is at
    least four fifths. *)
Lemma passed_is_exact (correct total : Z) :
  0 ≤ correct ≤ total → 0 < total ≤ Z.of_nat TOTAL_EXAM_QUESTIONS →
  number_ge (percentage_of correct total) PASSING_PERCENTAGE
  = (80 * total <=? 100 * correct).
Proof.
  intros Hc Ht.
  assert (forallb (λ t, forallb (λ c,
            Bool.eqb (number_ge (percentage_of (Z.of_nat c) (Z.of_nat t))
                        PASSING_PERCENTAGE)
                     (80 * Z.of_nat t <=? 100 * Z.of_nat c))
            (seq 0 (S t))) (seq 1 TOTAL_EXAM_QUESTIONS) = true) as Hall
    by (vm_compute; reflexivity).
  rewrite forallb_forall in Hall.
  specialize (Hall (Z.to_nat total)).
  rewrite forallb_forall in Hall.
  specialize (Hall ltac:(apply in_seq; unfold TOTAL_EXAM_QUESTIONS in *; lia)
                (Z.to_nat correct) ltac:(apply in_seq; lia)).
  rewrite !Z2Nat.id in Hall by lia. by apply Bool.eqb_prop.
Qed.

Lemma credited_none question : credited question PyNone = false.
Proof. done. Qed.

Lemma find_none_unmarked (opts : list Opt) :
  Forall (λ o, isCorrect o = false) opts → find isCorrect opts = None.
Proof.
  induction 1 as [|o opts Ho _ IH]; simpl; [done|]. by rewrite Ho.
Qed.

Lemma credited_unmarked question user_answer :
  Forall (λ o, isCorrect o = false) (options question) →
  credited question user_answer = false.
Proof.
  intros H. unfold credited. rewrite find_none_unmarked by done.
  apply andb_false_r.
Qed.

Lemma find_first_marked (earlier later : list Opt) correct_option :
  Forall (λ o, isCorrect o = false) earlier →
  isCorrect correct_option = true →
  find isCorrect (earlier ++ correct_option :: later) = Some correct_option.
Proof.
  induction 1 as [|o opts Ho _ IH]; intros Hc; simpl.
  - by rewrite Hc.
  - rewrite Ho. by apply IH.
Qed.

(** C3: [calculate_score] returns the number of credited positions, the
    length of the exam set, the percentage [correct / total * 100] in
    floating point when the exam set is not empty and the integer [0]
    when it is, and [passed = (percentage >= PASSING_PERCENTAGE)]; on an
    empty exam set with an empty answer map the report is
    [(0, 0, 0, False)]. *)
Theorem calculate_score_report exam_questions user_answers :
  let total := Z.of_nat (length exam_questions) in
  let correct :=
    Z.of_nat (length (filter
      (λ iq, credited iq.2 (get_answer user_answers iq.1) = true)
      (enumerate 0 exam_questions))) in
  (∃ percentage,
      calculate_score exam_questions user_answers
      = Some (correct, total, percentage,
              number_ge percentage PASSING_PERCENTAGE)
      ∧ percentage
        = if decide (0 < total) then percentage_of correct total else Int 0)
  ∧ calculate_score [] ∅ = Some (0, 0, Int 0, false).
Proof.
  intros total correct. split; [|reflexivity].
  destruct (calculate_score_some exam_questions user_answers)
    as (percentage & Hscore & Hpct).
  exists percentage. subst total correct.
  rewrite <- score_loop_count. by split.
Qed.

(** The scoring boundary of the specification: ten questions, eight or
    seven of them answered correctly. *)
Example score_8_of_10 :
  ∃ percentage,
    calculate_score (replicate 10 question_B) (answers_B 8)
    = Some (8, 10, percentage, true).
Proof. eexists. vm_compute. reflexivity. Qed.

Example score_7_of_10 :
  ∃ percentage,
    calculate_score (replicate 10 question_B) (answers_B 7)
    = Some (7, 10, percentage, false).
Proof. eexists. vm_compute. reflexivity. Qed.

(** C4: a position that is absent from the answer map, or whose question
    has no option marked correct (whatever the answer map holds there),
    adds nothing to the number of correct answers: the count is the count
    of the positions before it plus the count of the positions after it.
    The score is returned, not raised. *)
Theorem unanswered_never_credited before question after user_answers :
  user_answers !! Z.of_nat (length before) = None
  ∨ Forall (λ o, isCorrect o = false) (options question) →
  ∃ total percentage passed,
    calculate_score (before ++ question :: after) user_answers
    = Some (score_loop user_answers 0 before 0
            + score_loop user_answers (S (length before)) after 0,
            total, percentage, passed).
Proof.
  intros H.
  destruct (calculate_score_some (before ++ question :: after) user_answers)
    as (percentage & Hscore & _).
  rewrite score_loop_split in Hscore.
  assert (credited question (get_answer user_answers (length before)) = false)
    as Hno.
  { destruct H as [Habsent|Hunmarked].
    - unfold get_answer. rewrite Habsent. apply credited_none.
    - by apply credited_unmarked. }
  rewrite Hno, Z.add_0_r in Hscore. eauto.
Qed.

Lemma unanswered_never_credited_witness :
  ∃ total percentage passed,
    calculate_score ([question_B] ++ question_B :: [question_B]) (answers_B 1)
    = Some (score_loop (answers_B 1) 0 [question_B] 0
            + score_loop (answers_B 1) 2 [question_B] 0,
            total, percentage, passed).
Proof.
  apply (unanswered_never_credited [question_B] question_B [question_B]
           (answers_B 1)).
  left. vm_compute. reflexivity.
Defined.

(** C9: entries of the answer map whose key is not a position of the exam
    set, and entries whose value is falsy, are ignored: removing them
    leaves the report unchanged, and the report is returned, not raised. *)
Theorem stray_entries_ignored exam_questions user_answers :
  let total := Z.of_nat (length exam_questions) in
  let kept :=
    filter (λ kv, (0 ≤ kv.1 < total) ∧ truthy kv.2 = true) user_answers in
  calculate_score exam_questions user_answers
  = calculate_score exam_questions kept
  ∧ is_Some (calculate_score exam_questions user_answers).
Proof.
  intros total kept. split.
  - unfold calculate_score. fold total.
    replace (score_loop kept 0 exam_questions 0)
      with (score_loop user_answers 0 exam_questions 0); [done|].
    apply score_loop_ext. intros j question Hj. unfold get_answer.
    destruct (user_answers !! Z.of_nat j) as [a|] eqn:Hlookup.
    + destruct (truthy a) eqn:Htruthy.
      * assert (kept !! Z.of_nat j = Some a) as ->; [|done].
        apply map_lookup_filter_Some. split; [done|]. simpl.
        split; [subst total; lia|done].
      * assert (kept !! Z.of_nat j = None) as ->.
        { apply map_lookup_filter_None. right. intros a' Ha' [_ Ht].
          simpl in Ht. congruence. }
        simpl. unfold credited. by rewrite Htruthy.
    + assert (kept !! Z.of_nat j = None) as ->; [|done].
      apply map_lookup_filter_None. by left.
  - destruct (calculate_score_some exam_questions user_answers)
      as (percentage & -> & _). done.
Qed.

(** C10: when several options are marked correct, the answer recorded at
    a position is credited exactly when it is the letter of the first
    marked option, in the order of the question's options; an answer that
    is the letter of a later marked option, and not of the first, is not
    credited. *)
Theorem first_marked_option_decides
    before question after user_answers earlier correct_option later
    (user_answer : answer) :
  options question = earlier ++ correct_option :: later →
  Forall (λ o, isCorrect o = false) earlier →
  isCorrect correct_option = true →
  letter correct_option ≠ [] →
  user_answers !! Z.of_nat (length before) = Some user_answer →
  ∃ total percentage passed,
    calculate_score (before ++ question :: after) user_answers
    = Some (score_loop user_answers 0 before 0
            + (if decide (user_answer = PyStr (letter correct_option))
               then 1 else 0)
            + score_loop user_answers (S (length before)) after 0,
            total, percentage, passed).
Proof.
  intros Hopts Hearlier Hmarked Hletter Hanswer.
  destruct (calculate_score_some (before ++ question :: after) user_answers)
    as (percentage & Hscore & _).
  rewrite score_loop_split in Hscore.
  replace (credited question (get_answer user_answers (length before)))
    with (bool_decide (user_answer = PyStr (letter correct_option)))
    in Hscore.
  - exists (Z.of_nat (length (before ++ question :: after))), percentage.
    eexists. rewrite Hscore. repeat f_equal.
    by destruct (decide (user_answer = PyStr (letter correct_option)));
      [rewrite bool_decide_true|rewrite bool_decide_false].
  - unfold credited, get_answer. rewrite Hanswer, Hopts. simpl.
    rewrite find_first_marked by done.
    destruct (decide (user_answer = PyStr (letter correct_option))) as [->|Hne].
    + simpl. rewrite !bool_decide_true; done.
    + rewrite (bool_decide_false _ Hne). by rewrite andb_false_r.
Qed.

(** An answer C, the second marked option, earns nothing. *)
Lemma first_marked_option_decides_witness :
  ∃ total percentage passed,
    calculate_score ([] ++ question_two_marked :: [])
      {[ 0 := PyStr (lit "C") ]}
    = Some (0 + (if decide (PyStr (lit "C") = PyStr (lit "B")) then 1 else 0)
            + 0, total, percentage, passed).
Proof.
  apply (first_marked_option_decides [] question_two_marked []
           {[ 0 := PyStr (lit "C") ]}
           [ {| letter := lit "A"; text := lit "a"; isCorrect := false |} ]
           {| letter := lit "B"; text := lit "b"; isCorrect := true |}
           [ {| letter := lit "C"; text := lit "c"; isCorrect := true |} ]
           (PyStr (lit "C"))).
  - reflexivity.
  - repeat constructor.
  - reflexivity.
  - discriminate.
  - reflexivity.
Defined.

End Scoring.

(** ** Time format *)

Section TimeFormat.

Lemma length_string_of_uint (d : Decimal.uint) :
  length (lit (NilZero.string_of_uint d))
  = match d with Decimal.Nil => 1%nat | _ => Decimal.nb_digits d end.
Proof.
  assert (∀ u, length (lit (NilEmpty.string_of_uint u)) = Decimal.nb_digits u)
    as Hne.
  { induction u; simpl; congruence. }
  destruct d; simpl; try done; by rewrite Hne.
Qed.

(** Two decimal digits denote a number below one hundred. *)
Lemma of_uint_two_digits (d : Decimal.uint) :
  (Decimal.nb_digits d ≤ 2)%nat → (N.of_uint d < 100)%N.
Proof.
  intros H.
  destruct d as [|d|d|d|d|d|d|d|d|d|d]; [done|..];
    (destruct d as [|d|d|d|d|d|d|d|d|d|d]; [done|..];
     (destruct d; [done|simpl in H; lia..])).
Qed.

Lemma length_decimal_large (n : Z) : 100 ≤ n → (3 ≤ length (decimal n))%nat.
Proof.
  intros Hn. unfold decimal. rewrite length_string_of_uint.
  pose proof (DecimalN.Unsigned.of_to (Z.to_N n)) as Hback.
  destruct (N.to_uint (Z.to_N n)) as [|d|d|d|d|d|d|d|d|d|d] eqn:Hd;
    [simpl in Hback; lia|..];
    (destruct (decide (Decimal.nb_digits (N.to_uint (Z.to_N n)) ≤ 2)%nat)
       as [Hsmall|Hbig];
     [apply of_uint_two_digits in Hsmall; rewrite Hd in Hsmall; lia
     |rewrite Hd in Hbig; lia]).
Qed.

Lemma format_02d_two_digits (n : Z) :
  0 ≤ n < 100 →
  format_02d n = [digit_char (n / 10); digit_char (n mod 10)].
Proof.
  intros Hn.
  assert (Forall (λ k, format_02d (Z.of_nat k)
                       = [digit_char (Z.of_nat k / 10);
                          digit_char (Z.of_nat k mod 10)]) (seq 0 100))
    as Hall.
  { apply (bool_decide_unpack _). vm_compute. exact I. }
  rewrite Forall_forall in Hall.
  specialize (Hall (Z.to_nat n)). rewrite Z2Nat.id in Hall by lia.
  apply Hall, elem_of_seq. lia.
Qed.

Lemma format_02d_large (n : Z) : 100 ≤ n → format_02d n = decimal n.
Proof.
  intros Hn. unfold format_02d.
  pose proof (length_decimal_large n Hn).
  destruct (Z.ltb_spec n 0); [lia|].
  destruct (Nat.ltb_spec (length (decimal n)) 2); [lia|done].
Qed.

(** C8 (as stated): 6000 seconds are not rendered as [MM:SS]. *)
Lemma format_time_hundred_minutes :
  0 ≤ 6000
  ∧ format_time 6000 = lit "100:00"
  ∧ length (format_time 6000) ≠ length (lit "MM:SS").
Proof. split; [lia|]. split; [reflexivity|]. vm_compute. lia. Qed.

(** C8 (amended): for a number of seconds that is not negative,
    [format_time] returns the minutes [seconds // 60], a colon and the
    two decimal digits of [seconds % 60]; the minutes are padded with a
    zero to two digits, which makes the result [MM:SS] below 6000
    seconds, and are written in full, on three digits or more, from 6000
    seconds on. *)
Theorem format_time_minutes_seconds (seconds : Z) :
  0 ≤ seconds →
  let minutes := seconds / 60 in
  let secs := seconds mod 60 in
  ∃ mm,
    format_time seconds
    = mm ++ ":"%char :: [digit_char (secs / 10); digit_char (secs mod 10)]
    ∧ if decide (seconds < 6000)
      then mm = [digit_char (minutes / 10); digit_char (minutes mod 10)]
      else mm = decimal minutes ∧ (3 ≤ length mm)%nat.
Proof.
  intros Hs minutes secs. exists (format_02d minutes). split.
  - unfold format_time. fold minutes secs.
    rewrite (format_02d_two_digits secs); [done|].
    pose proof (Z.mod_pos_bound seconds 60). lia.
  - assert (0 ≤ minutes) by (subst minutes; apply Z.div_pos; lia).
    destruct (decide (seconds < 6000)) as [Hlt|Hge].
    + apply format_02d_two_digits. split; [done|].
      subst minutes. apply Z.div_lt_upper_bound; lia.
    + assert (100 ≤ minutes).
      { subst minutes. apply Z.div_le_lower_bound; lia. }
      rewrite format_02d_large by done.
      split; [done|]. by apply length_decimal_large.
Qed.

Lemma format_time_minutes_seconds_witness :
  ∃ mm,
    format_time 9000
    = mm ++ ":"%char :: [digit_char (9000 mod 60 / 10);
                         digit_char (9000 mod 60 mod 10)]
    ∧ if decide (9000 < 6000)
      then mm = [digit_char (9000 / 60 / 10); digit_char (9000 / 60 mod 10)]
      else mm = decimal (9000 / 60) ∧ (3 ≤ length mm)%nat.
Proof. apply (format_time_minutes_seconds 9000). lia. Defined.

End TimeFormat.

(** ** Sampling *)

Section Sampling.

Context {A : Type}.
Implicit Types (pool population : list A) (g : Random.state).

Lemma randbelow_lt (n : nat) g : (0 < n)%nat → ((Random.randbelow n g).1 < n)%nat.
Proof.
  intros Hn. destruct g as [|r g]; simpl; [done|].
  apply Nat.mod_upper_bound. lia.
Qed.

(** [k] draws give [k] elements taken at distinct positions of the pool. *)
Lemma draw_spec (k : nat) pool g :
  (k ≤ length pool)%nat →
  length (Random.draw k pool g).1 = k ∧ (Random.draw k pool g).1 ⊆+ pool.
Proof.
  revert pool g. induction k as [|k IH]; intros pool g Hk; simpl.
  - split; [done|apply submseteq_nil_l].
  - pose proof (randbelow_lt (length pool) g ltac:(lia)) as Hj.
    destruct (Random.randbelow (length pool) g) as [j g1]. simpl in Hj.
    destruct (lookup_lt_is_Some_2 pool j Hj) as [x Hx]. rewrite Hx.
    destruct (IH (delete j pool) g1) as [Hlen Hsub].
    { rewrite length_delete by eauto. lia. }
    destruct (Random.draw k (delete j pool) g1) as [xs g2]. simpl in *.
    split; [by rewrite Hlen|].
    rewrite (delete_Permutation pool j x Hx). by apply submseteq_skip.
Qed.

Lemma sample_spec population (k : nat) g :
  (k ≤ length population)%nat →
  ∃ xs g', Random.sample population k g = Some (xs, g')
           ∧ length xs = k ∧ xs ⊆+ population.
Proof.
  intros Hk. unfold Random.sample. rewrite decide_True by done.
  destruct (draw_spec k population g Hk) as [Hlen Hsub].
  destruct (Random.draw k population g) as [xs g']. eauto.
Qed.

Lemma shuffle_Permutation (x : list A) g : (Random.shuffle x g).1 ≡ₚ x.
Proof.
  destruct (draw_spec (length x) x g) as [Hlen Hsub]; [done|].
  apply submseteq_length_Permutation; [done|]. unfold Random.shuffle. lia.
Qed.

Lemma submseteq_NoDup (l k : list A) : l ⊆+ k → NoDup k → NoDup l.
Proof.
  intros [k' Hk']%submseteq_Permutation Hnd. rewrite Hk' in Hnd.
  by apply NoDup_app in Hnd as [? _].
Qed.

Lemma filter_all (P : A → Prop) `{∀ x, Decision (P x)} (l : list A) :
  Forall P l → filter P l = l.
Proof.
  induction 1 as [|x l Hx _ IH]; [done|].
  by rewrite filter_cons, decide_True, IH.
Qed.

Lemma filter_none (P : A → Prop) `{∀ x, Decision (P x)} (l : list A) :
  Forall (λ x, ¬ P x) l → filter P l = [].
Proof.
  induction 1 as [|x l Hx _ IH]; [done|].
  by rewrite filter_cons, decide_False, IH.
Qed.

Lemma length_filter_concat (P : A → Prop) `{∀ x, Decision (P x)}
    (ls : list (list A)) :
  length (filter P (concat ls))
  = sum_list ((λ l, length (filter P l)) <$> ls).
Proof.
  induction ls as [|l ls IH]; [done|].
  simpl. by rewrite filter_app, length_app, IH.
Qed.

Lemma length_concat_sum (ls : list (list A)) :
  length (concat ls) = sum_list (length <$> ls).
Proof.
  induction ls as [|l ls IH]; [done|]. simpl. by rewrite length_app, IH.
Qed.

End Sampling.

Lemma Forall2_sum_le {E B} (f : E → nat) (h : B → nat) (es : list E)
    (bs : list B) :
  Forall2 (λ e b, (h b ≤ f e)%nat) es bs →
  (sum_list (h <$> bs) ≤ sum_list (f <$> es))%nat.
Proof. induction 1; csimpl; lia. Qed.

Lemma Forall2_sum_eq {E B} (f : E → nat) (h : B → nat) (es : list E)
    (bs : list B) :
  Forall2 (λ e b, h b = f e) es bs →
  sum_list (h <$> bs) = sum_list (f <$> es).
Proof. induction 1; csimpl; lia. Qed.

(** ** Exam assembly *)

Section Assembly.

Implicit Types (questions selected exam pick : list Question).
Implicit Types (g : Random.state) (entry : Z * nat).

Lemma select_loop_spec questions (distribution : list (Z * nat)) selected g :
  ∃ picks g',
    select_loop questions distribution selected g
    = Some (selected ++ concat picks, g')
    ∧ Forall2 (contribution questions) distribution picks.
Proof.
  revert selected g.
  induction distribution as [|[domain count] distribution IH];
    intros selected g.
  { exists [], g. simpl. by rewrite app_nil_r. }
  cbn [select_loop].
  destruct (decide (count ≤ length (get_questions_by_domain questions domain))%nat)
    as [Henough|Hshort].
  - destruct (sample_spec (get_questions_by_domain questions domain) count g
                Henough) as (picked & g1 & -> & Hlen & Hsub).
    cbn [mbind option_bind].
    destruct (IH (selected ++ picked) g1) as (picks & g' & -> & Hpicks).
    exists (picked :: picks), g'. split.
    + by rewrite <- app_assoc.
    + constructor; [|done]. unfold contribution. simpl.
      by rewrite decide_True.
  - destruct (questions_outside questions domain) as [|q others] eqn:Hothers.
    + destruct (IH (selected ++ get_questions_by_domain questions domain) g)
        as (picks & g' & -> & Hpicks).
      exists (get_questions_by_domain questions domain :: picks), g'. split.
      * by rewrite <- app_assoc.
      * constructor; [|done]. unfold contribution. simpl.
        rewrite decide_False by done. exists []. rewrite Hothers.
        rewrite app_nil_r. split; [done|]. split; [done|]. simpl. lia.
    + rewrite <- Hothers.
      edestruct (sample_spec (questions_outside questions domain)
                  ((count - length (get_questions_by_domain questions domain))
                     `min` length (questions_outside questions domain)) g)
        as (picked & g1 & -> & Hlen & Hsub); [lia|].
      cbn [mbind option_bind].
      destruct (IH ((selected ++ get_questions_by_domain questions domain)
                      ++ picked) g1) as (picks & g' & -> & Hpicks).
      exists ((get_questions_by_domain questions domain ++ picked) :: picks), g'.
      split.
      * simpl. by rewrite <- !app_assoc.
      * constructor; [|done]. unfold contribution. simpl.
        rewrite decide_False by done. eauto.
Qed.

(** The exam is a rearrangement of what the five passes appended. *)
Lemma select_exam_questions_spec questions g :
  ∃ exam g' picks,
    select_exam_questions questions g = Some (exam, g')
    ∧ exam ≡ₚ concat picks
    ∧ Forall2 (contribution questions) EXAM_DISTRIBUTION picks.
Proof.
  unfold select_exam_questions.
  destruct (select_loop_spec questions EXAM_DISTRIBUTION [] g)
    as (picks & g1 & -> & Hpicks).
  cbn [mbind option_bind app].
  destruct (Random.shuffle (concat picks) g1) as [exam g'] eqn:Hshuffle.
  exists exam, g', picks. split; [done|]. split; [|done].
  pose proof (shuffle_Permutation (concat picks) g1) as Hperm.
  by rewrite Hshuffle in Hperm.
Qed.

Lemma contribution_length questions entry pick :
  contribution questions entry pick →
  length pick = contribution_size questions entry.
Proof.
  unfold contribution, contribution_size.
  destruct (decide _) as [_|_].
  - by intros [_ ?].
  - intros (extras & -> & _ & Hlen). by rewrite length_app, Hlen.
Qed.

(** The length of the exam does not depend on the draws. *)
Lemma select_exam_questions_length questions g :
  ∃ exam g',
    select_exam_questions questions g = Some (exam, g')
    ∧ length exam
      = sum_list (contribution_size questions <$> EXAM_DISTRIBUTION).
Proof.
  destruct (select_exam_questions_spec questions g)
    as (exam & g' & picks & Hsel & Hperm & Hpicks).
  exists exam, g'. split; [done|].
  rewrite Hperm, length_concat_sum.
  apply Forall2_sum_eq.
  eapply Forall2_impl; [exact Hpicks|].
  intros entry pick. apply contribution_length.
Qed.

Lemma in_domain_of_pool questions (domain : Z) pick :
  pick ⊆+ get_questions_by_domain questions domain →
  Forall (λ q, domainNumber q = domain) pick.
Proof.
  intros Hsub. apply Forall_forall. intros q Hq.
  eapply elem_of_submseteq in Hq; [|exact Hsub].
  unfold get_questions_by_domain in Hq.
  by apply list_elem_of_filter in Hq as [? _].
Qed.

Lemma outside_domain_of_others questions (domain : Z) pick :
  pick ⊆+ questions_outside questions domain →
  Forall (λ q, domainNumber q ≠ domain) pick.
Proof.
  intros Hsub. apply Forall_forall. intros q Hq.
  eapply elem_of_submseteq in Hq; [|exact Hsub].
  unfold questions_outside in Hq.
  by apply list_elem_of_filter in Hq as [? _].
Qed.

(** Questions of one domain, counted in a list of questions of a domain. *)
Lemma count_in_domain (d domain : Z) pick :
  Forall (λ q, domainNumber q = domain) pick →
  length (get_questions_by_domain pick d)
  = if decide (domain = d) then length pick else 0%nat.
Proof.
  intros Hall. unfold get_questions_by_domain.
  destruct (decide (domain = d)) as [<-|Hne].
  - by rewrite filter_all.
  - rewrite filter_none; [done|].
    eapply Forall_impl; [exact Hall|]. simpl. congruence.
Qed.

Lemma pool_of_others questions (d domain : Z) :
  domain ≠ d →
  get_questions_by_domain (questions_outside questions d) domain
  = get_questions_by_domain questions domain.
Proof.
  intros Hne. unfold get_questions_by_domain, questions_outside.
  induction questions as [|q questions IH]; [done|].
  rewrite !filter_cons.
  destruct (decide (domainNumber q ≠ d)) as [Hq|Hq].
  - rewrite filter_cons. destruct (decide (domainNumber q = domain)); by rewrite IH.
  - rewrite decide_False by (apply dec_stable in Hq; congruence). done.
Qed.

(** The pools of distinct domains are disjoint parts of the corpus. *)
Lemma pools_submseteq (domains : list Z) questions :
  NoDup domains →
  concat (get_questions_by_domain questions <$> domains) ⊆+ questions.
Proof.
  intros Hnd. revert questions.
  induction Hnd as [|d domains Hd _ IH]; intros questions.
  - apply submseteq_nil_l.
  - csimpl.
    rewrite <- (filter_app_complement (λ q, domainNumber q = d) questions)
      at 3.
    apply submseteq_app; [done|].
    etrans; [|apply (IH (questions_outside questions d))].
    replace (get_questions_by_domain (questions_outside questions d) <$> domains)
      with (get_questions_by_domain questions <$> domains); [done|].
    apply Forall_fmap_ext, Forall_forall. intros domain Hin.
    symmetry. apply pool_of_others. by intros ->.
Qed.

Lemma picks_submseteq questions (distribution : list (Z * nat))
    (picks : list (list Question)) :
  Forall2 (λ entry pick, pick ⊆+ get_questions_by_domain questions entry.1)
    distribution picks →
  concat picks
  ⊆+ concat (get_questions_by_domain questions <$> distribution.*1).
Proof.
  induction 1 as [|entry pick distribution picks Hpick _ IH]; [done|].
  csimpl. by apply submseteq_app.
Qed.

Lemma Forall2_with_l {E B} (P : E → Prop) (R : E → B → Prop) es bs :
  Forall P es → Forall2 R es bs → Forall2 (λ e b, P e ∧ R e b) es bs.
Proof.
  intros HP HR. revert HP.
  induction HR; intros HP; [done|].
  apply Forall_cons in HP as [? ?]. constructor; auto.
Qed.

(** How many questions of one domain a pass appends, at most. *)
Lemma contribution_count questions entry pick (d : Z) :
  contribution questions entry pick →
  (length (get_questions_by_domain pick d)
   ≤ (if decide (entry.1 = d) then entry.2 else 0)
     + shortfall questions entry)%nat.
Proof.
  unfold contribution, shortfall.
  destruct (decide (entry.2 ≤ _)%nat) as [Henough|Hshort].
  - intros [Hsub Hlen].
    rewrite (count_in_domain d entry.1) by by eapply in_domain_of_pool.
    destruct (decide (entry.1 = d)); lia.
  - intros (extras & -> & Hsub & Hlen).
    unfold get_questions_by_domain at 1. rewrite filter_app, length_app.
    fold (get_questions_by_domain (get_questions_by_domain questions entry.1) d).
    rewrite (count_in_domain d entry.1)
      by by eapply in_domain_of_pool.
    destruct (decide (entry.1 = d)) as [Heq|Hne].
    + rewrite filter_none; [simpl; lia|].
      apply outside_domain_of_others in Hsub.
      eapply Forall_impl; [exact Hsub|]. simpl. congruence.
    + pose proof (length_filter (λ q, domainNumber q = d) extras). lia.
Qed.

Lemma quota_of_domain (d : Z) (n : nat) (f : Z * nat → nat) :
  (d, n) ∈ EXAM_DISTRIBUTION →
  sum_list ((λ entry, (if decide (entry.1 = d) then entry.2 else 0) + f entry)%nat
              <$> EXAM_DISTRIBUTION)
  = (n + sum_list (f <$> EXAM_DISTRIBUTION))%nat.
Proof.
  unfold EXAM_DISTRIBUTION. intros Hin.
  repeat (apply elem_of_cons in Hin as [Heq|Hin];
          [injection Heq as -> ->; csimpl; repeat case_decide; try lia|]).
  by apply elem_of_nil in Hin.
Qed.

Lemma NoDup_domains : NoDup (EXAM_DISTRIBUTION.*1).
Proof. apply (bool_decide_unpack _). vm_compute. exact I. Qed.

(** C1: when every domain of the quota table holds at least its quota of
    questions, [select_exam_questions] returns an exam in which each
    domain has exactly its quota, whose length is 152, and which takes
    its questions from the corpus without taking any of them twice. *)
Theorem select_exam_questions_stratified questions g :
  (∀ domain count, (domain, count) ∈ EXAM_DISTRIBUTION →
     (count ≤ length (get_questions_by_domain questions domain))%nat) →
  ∃ exam g',
    select_exam_questions questions g = Some (exam, g')
    ∧ (∀ domain count, (domain, count) ∈ EXAM_DISTRIBUTION →
         length (get_questions_by_domain exam domain) = count)
    ∧ length exam = TOTAL_EXAM_QUESTIONS
    ∧ exam ⊆+ questions
    ∧ (NoDup questions → NoDup exam).
Proof.
  intros Henough.
  destruct (select_exam_questions_spec questions g)
    as (exam & g' & picks & Hsel & Hperm & Hpicks).
  assert (Forall2 (λ entry pick,
            pick ⊆+ get_questions_by_domain questions entry.1
            ∧ length pick = entry.2) EXAM_DISTRIBUTION picks) as Hquota.
  { eapply Forall2_impl.
    - apply (Forall2_with_l
               (λ entry, (entry.2 ≤ length
                  (get_questions_by_domain questions entry.1))%nat)
               (contribution questions)); [|exact Hpicks].
      apply Forall_forall. intros [domain count] Hin. by apply Henough.
    - intros entry pick [Hle Hc]. unfold contribution in Hc.
      by rewrite decide_True in Hc. }
  assert (exam ⊆+ questions) as Hsub.
  { rewrite Hperm.
    etrans; [|apply (pools_submseteq (EXAM_DISTRIBUTION.*1)), NoDup_domains].
    apply picks_submseteq.
    eapply Forall2_impl; [exact Hquota|]. by intros ? ? [? _]. }
  exists exam, g'. split; [done|]. split; [|split; [|split]].
  - intros domain count Hin.
    unfold get_questions_by_domain. rewrite Hperm, length_filter_concat.
    rewrite (Forall2_sum_eq
               (λ entry, (if decide (entry.1 = domain) then entry.2 else 0)
                         + 0)%nat _ EXAM_DISTRIBUTION picks).
    + rewrite (quota_of_domain domain count (λ _, 0%nat)) by done.
      unfold EXAM_DISTRIBUTION. csimpl. lia.
    + eapply Forall2_impl; [exact Hquota|].
      intros entry pick [Hin_pool Hlen]. simpl.
      fold (get_questions_by_domain pick domain).
      rewrite (count_in_domain domain entry.1)
        by by eapply in_domain_of_pool.
      destruct (decide (entry.1 = domain)); lia.
  - rewrite Hperm, length_concat_sum.
    rewrite (Forall2_sum_eq snd length EXAM_DISTRIBUTION picks); [done|].
    eapply Forall2_impl; [exact Hquota|]. by intros ? ? [_ ?].
  - done.
  - intros Hnd. by eapply submseteq_NoDup.
Qed.

Lemma select_exam_questions_stratified_witness :
  ∃ exam g',
    select_exam_questions corpus_full [7; 1; 8; 2; 8]%nat = Some (exam, g')
    ∧ (∀ domain count, (domain, count) ∈ EXAM_DISTRIBUTION →
         length (get_questions_by_domain exam domain) = count)
    ∧ length exam = TOTAL_EXAM_QUESTIONS
    ∧ exam ⊆+ corpus_full
    ∧ (NoDup corpus_full → NoDup exam).
Proof.
  apply (select_exam_questions_stratified corpus_full [7; 1; 8; 2; 8]%nat).
  unfold EXAM_DISTRIBUTION. intros domain count Hin.
  repeat (apply elem_of_cons in Hin as [Heq|Hin];
          [injection Heq as -> ->; vm_compute; lia|]).
  by apply elem_of_nil in Hin.
Defined.

(** C2 (as stated): domain 4 is short of its quota and the questions
    outside it cover what is missing, yet the exam has 145 questions, not
    152, because domain 1, short as well, finds nothing outside itself. *)
Lemma shortfall_of_one_domain_not_enough :
  (4, 29%nat) ∈ EXAM_DISTRIBUTION
  ∧ (length (get_questions_by_domain corpus_29 4) < 29)%nat
  ∧ (29 - length (get_questions_by_domain corpus_29 4)
     ≤ length (questions_outside corpus_29 4))%nat
  ∧ ∀ g, ∃ exam g',
      select_exam_questions corpus_29 g = Some (exam, g')
      ∧ length exam = 145%nat
      ∧ length exam ≠ TOTAL_EXAM_QUESTIONS.
Proof.
  split; [unfold EXAM_DISTRIBUTION; set_solver|].
  split; [vm_compute; lia|]. split; [vm_compute; lia|].
  intros g.
  destruct (select_exam_questions_length corpus_29 g)
    as (exam & g' & Hsel & Hlen).
  exists exam, g'. split; [done|].
  assert (sum_list (contribution_size corpus_29 <$> EXAM_DISTRIBUTION)
          = 145%nat) as Hsize by (vm_compute; reflexivity).
  rewrite Hsize in Hlen. split; [done|]. rewrite Hlen.
  unfold TOTAL_EXAM_QUESTIONS. lia.
Qed.

(** C2 (amended): when every domain that is short of its quota finds the
    missing number of questions among the questions outside it, the exam
    has 152 questions: each pass appends its quota, a short domain
    contributing all its questions and extras drawn from the questions
    outside it; and no domain of the table appears in the exam more often
    than its quota plus the shortfalls of the table taken together. *)
Theorem select_exam_questions_shortfall questions g :
  (∀ domain count, (domain, count) ∈ EXAM_DISTRIBUTION →
     (length (get_questions_by_domain questions domain) < count)%nat →
     (count - length (get_questions_by_domain questions domain)
      ≤ length (questions_outside questions domain))%nat) →
  ∃ exam g' picks,
    select_exam_questions questions g = Some (exam, g')
    ∧ length exam = TOTAL_EXAM_QUESTIONS
    ∧ exam ≡ₚ concat picks
    ∧ Forall2 (λ entry pick,
         contribution questions entry pick ∧ length pick = entry.2)
        EXAM_DISTRIBUTION picks
    ∧ (∀ domain count, (domain, count) ∈ EXAM_DISTRIBUTION →
         (length (get_questions_by_domain exam domain)
          ≤ count + total_shortfall questions)%nat).
Proof.
  intros Hcover.
  destruct (select_exam_questions_spec questions g)
    as (exam & g' & picks & Hsel & Hperm & Hpicks).
  assert (Forall2 (λ entry pick,
            contribution questions entry pick ∧ length pick = entry.2)
            EXAM_DISTRIBUTION picks) as Hquota.
  { eapply Forall2_impl.
    - apply (Forall2_with_l
               (λ entry,
                  (length (get_questions_by_domain questions entry.1)
                   < entry.2)%nat →
                  (entry.2 - length (get_questions_by_domain questions entry.1)
                   ≤ length (questions_outside questions entry.1))%nat)
               (contribution questions)); [|exact Hpicks].
      apply Forall_forall. intros [domain count] Hin. by apply Hcover.
    - intros entry pick [Hc Hpick]. split; [done|].
      rewrite (contribution_length _ _ _ Hpick). unfold contribution_size.
      destruct (decide _) as [?|Hshort]; [done|].
      specialize (Hc ltac:(lia)). lia. }
  exists exam, g', picks. split; [done|]. split; [|split; [done|split; [done|]]].
  - rewrite Hperm, length_concat_sum.
    rewrite (Forall2_sum_eq snd length EXAM_DISTRIBUTION picks); [done|].
    eapply Forall2_impl; [exact Hquota|]. by intros ? ? [_ ?].
  - intros domain count Hin.
    unfold get_questions_by_domain. rewrite Hperm, length_filter_concat.
    unfold total_shortfall.
    rewrite <- (quota_of_domain domain count (shortfall questions)) by done.
    apply Forall2_sum_le.
    eapply Forall2_impl; [exact Hpicks|].
    intros entry pick Hpick. by apply contribution_count.
Qed.

Lemma select_exam_questions_shortfall_witness :
  ∃ exam g' picks,
    select_exam_questions corpus_short [3; 1; 4; 1; 5; 9]%nat = Some (exam, g')
    ∧ length exam = TOTAL_EXAM_QUESTIONS
    ∧ exam ≡ₚ concat picks
    ∧ Forall2 (λ entry pick,
         contribution corpus_short entry pick ∧ length pick = entry.2)
        EXAM_DISTRIBUTION picks
    ∧ (∀ domain count, (domain, count) ∈ EXAM_DISTRIBUTION →
         (length (get_questions_by_domain exam domain)
          ≤ count + total_shortfall corpus_short)%nat).
Proof.
  apply (select_exam_questions_shortfall corpus_short [3; 1; 4; 1; 5; 9]%nat).
  unfold EXAM_DISTRIBUTION. intros domain count Hin Hshort.
  repeat (apply elem_of_cons in Hin as [Heq|Hin];
          [injection Heq as -> ->; vm_compute; lia|]).
  by apply elem_of_nil in Hin.
Defined.

End Assembly.

(** ** The matcher *)

Section Matcher.

Implicit Types (s rest : str) (caps : list str) (r : regex) (k : cont).

Lemma strip_prefix_Some (p s s' : str) :
  strip_prefix p s = Some s' ↔ s = p ++ s'.
Proof.
  revert s. induction p as [|a p IH]; intros s; simpl.
  - split; congruence.
  - destruct s as [|b s]; [split; discriminate|].
    destruct (Ascii.eqb_spec a b) as [<-|Hne].
    + rewrite IH. split; congruence.
    + split; [discriminate|]. intros [= ? ?]. done.
Qed.

(** The fuel of [replace] is never used up. *)
Lemma replace_fuel_enough (fuel : nat) (old new s : str) :
  old ≠ [] → (length s < fuel)%nat →
  replace_fuel fuel old new s = replace old new s.
Proof.
  intros Hold. unfold replace.
  generalize (S (length s)) (Nat.lt_succ_diag_r (length s)).
  intros fuel' Hfuel' Hfuel.
  remember (length s) as n eqn:Hn.
  assert (length s ≤ n)%nat as Hle by lia. clear Hn.
  revert s fuel fuel' Hle Hfuel Hfuel'.
  induction n as [|n IH]; intros s fuel fuel' Hle Hfuel Hfuel';
    (destruct fuel as [|fuel]; [lia|]); (destruct fuel' as [|fuel']; [lia|]);
    simpl.
  - destruct s; [|simpl in Hle; lia]. by destruct old.
  - destruct (strip_prefix old s) as [s'|] eqn:Hprefix.
    + apply strip_prefix_Some in Hprefix as ->.
      rewrite length_app in Hle. destruct old; [done|]. simpl in Hle.
      f_equal. apply IH; lia.
    + destruct s as [|c s]; [done|]. simpl in Hle. f_equal. apply IH; lia.
Qed.

Lemma rep_greedy_inv (p : ascii → bool) (least : nat) s
    (k : str → option result) res :
  rep_greedy p least s k = Some res →
  ∃ w s', s = w ++ s' ∧ Forall (λ c, p c = true) w
          ∧ (least ≤ length w)%nat ∧ k s' = Some res.
Proof.
  revert least. induction s as [|c s IH]; intros least; simpl.
  - destruct least; [|done]. intros Hk. exists [], []. by repeat split.
  - assert (match least with O => k (c :: s) | S _ => None end = Some res →
            ∃ w s', c :: s = w ++ s' ∧ Forall (λ c, p c = true) w
                    ∧ (least ≤ length w)%nat ∧ k s' = Some res) as Hstop.
    { destruct least; [|done]. intros Hk. exists [], (c :: s). by repeat split. }
    destruct (p c) eqn:Hc; [|done].
    destruct (rep_greedy p (Nat.pred least) s k) as [res'|] eqn:Hrec; [|done].
    simpl. intros [= ->].
    destruct (IH _ Hrec) as (w & s' & -> & Hw & Hlen & Hk).
    exists (c :: w), s'. repeat split; [by constructor|simpl; lia|done].
Qed.

Lemma rep_lazy_inv (p : ascii → bool) (least : nat) s
    (k : str → option result) res :
  rep_lazy p least s k = Some res →
  ∃ w s', s = w ++ s' ∧ Forall (λ c, p c = true) w
          ∧ (least ≤ length w)%nat ∧ k s' = Some res.
Proof.
  revert least. induction s as [|c s IH]; intros least; simpl.
  - destruct least; [|done]. destruct (k []) eqn:Hk; [|done].
    simpl. intros [= ->]. exists [], []. by repeat split.
  - assert ((if p c then rep_lazy p (Nat.pred least) s k else None) = Some res →
            ∃ w s', c :: s = w ++ s' ∧ Forall (λ c, p c = true) w
                    ∧ (least ≤ length w)%nat ∧ k s' = Some res) as Hmore.
    { destruct (p c) eqn:Hc; [|done]. intros Hrec.
      destruct (IH _ Hrec) as (w & s' & -> & Hw & Hlen & Hk).
      exists (c :: w), s'. repeat split; [by constructor|simpl; lia|done]. }
    destruct least; [|done].
    destruct (k (c :: s)) eqn:Hk; [|done].
    simpl. intros [= ->]. exists [], (c :: s). by repeat split.
Qed.

(** A successful run hands a suffix of the input to its continuation. *)
Lemma run_suffix r s caps k res :
  run r s caps k = Some res →
  ∃ s' caps', s' `suffix_of` s ∧ k s' caps' = Some res.
Proof.
  revert s caps k.
  induction r as [l|p|greedy least p|r1 IH1 r2 IH2|r1 IH1 r2 IH2|r1 IH1
                 |r1 IH1| |]; intros s caps k; cbn [run].
  - destruct (strip_prefix l s) as [s'|] eqn:Hl; [|done].
    apply strip_prefix_Some in Hl as ->. intros Hk.
    exists s', caps. split; [by apply suffix_app_r|done].
  - destruct s as [|c s]; [done|]. destruct (p c); [|done]. intros Hk.
    exists s, caps. split; [by apply suffix_cons_r|done].
  - destruct greedy.
    + intros (w & s' & -> & _ & _ & Hk)%rep_greedy_inv.
      exists s', caps. split; [by apply suffix_app_r|done].
    + intros (w & s' & -> & _ & _ & Hk)%rep_lazy_inv.
      exists s', caps. split; [by apply suffix_app_r|done].
  - intros (s1 & caps1 & Hs1 & H2)%IH1.
    apply IH2 in H2 as (s2 & caps2 & Hs2 & Hk).
    exists s2, caps2. split; [by etrans|done].
  - destruct (run r1 s caps k) eqn:H1; simpl.
    + intros [= ->]. by apply IH1 in H1.
    + apply IH2.
  - intros (s1 & caps1 & Hs1 & Hk)%IH1. eauto.
  - destruct (run r1 s caps _); [|done]. intros Hk. by exists s, caps.
  - destruct s; [|done]. intros Hk. by exists [], caps.
  - destruct (at_dollar s); [|done]. intros Hk. by exists s, caps.
Qed.

Lemma match_here_suffix r s rest caps :
  match_here r s = Some (rest, caps) → rest `suffix_of` s.
Proof.
  intros (s' & caps' & Hs & [= <- _])%run_suffix. done.
Qed.

(** [search] finds a place where the expression matches. *)
Lemma search_inv r s m :
  search r s = Some m →
  ∃ mid, s = before m ++ mid ∧ match_here r mid = Some (after m, groups m).
Proof.
  revert m. induction s as [|c s IH]; intros m; simpl.
  - destruct (match_here r []) as [[rest caps]|] eqn:Hm; [|done].
    intros [= <-]. by exists [].
  - destruct (match_here r (c :: s)) as [[rest caps]|] eqn:Hm.
    + intros [= <-]. by exists (c :: s).
    + destruct (search r s) as [m'|]; [|done]. intros [= <-]. simpl.
      destruct (IH m' eq_refl) as (mid & -> & Hmid). by exists mid.
Qed.

(** An expression that begins with a literal is only found where the
    literal occurs. *)
Lemma search_literal (l : str) r s m :
  search (Cat (Lit l) r) s = Some m → contains l s = true.
Proof.
  revert m. induction s as [|c s IH]; intros m.
  - simpl. unfold match_here. cbn [run].
    destruct (strip_prefix l []); [done|]. by destruct l.
  - cbn [search contains]. unfold match_here. cbn [run].
    destruct (strip_prefix l (c :: s)); [done|].
    destruct (search (Cat (Lit l) r) s) as [m'|]; [|done].
    intros _. by eapply IH.
Qed.

Lemma count_matches_suffix r s s' :
  s' `suffix_of` s → (count_matches r s' ≤ count_matches r s)%nat.
Proof.
  intros [w ->]. induction w as [|c w IH]; simpl; lia.
Qed.

End Matcher.

(** ** The parser *)

Section Parser.

Implicit Types (content block id_text s : str) (q : Question).

(** A record marker: the literal, white space, and the digits of the id,
    which are the only group. *)
Lemma match_marker_inv s rest (caps : list str) :
  match_here re_marker s = Some (rest, caps) →
  ∃ spaces digits,
    s = lit "----Question" ++ spaces ++ digits ++ rest
    ∧ caps = [digits]
    ∧ digits ≠ []
    ∧ Forall (λ c, CharClass.digit c = true) digits.
Proof.
  unfold match_here, re_marker. cbn [run].
  destruct (strip_prefix (lit "----Question") s) as [s1|] eqn:Hlit; [|done].
  apply strip_prefix_Some in Hlit as ->.
  intros (spaces & s2 & -> & _ & _ & Hdigits)%rep_greedy_inv.
  apply rep_greedy_inv in Hdigits as (digits & s3 & -> & Hall & Hlen & Hk).
  injection Hk as <- <-.
  exists spaces, digits. split; [done|]. split; [|split; [|done]].
  - rewrite length_app.
    replace (length digits + length s3 - length s3)%nat
      with (length digits) by lia.
    by rewrite take_app_length.
  - intros ->. simpl in Hlen. lia.
Qed.

Lemma search_marker_shorter s m :
  search re_marker s = Some m → (length (after m) < length s)%nat.
Proof.
  intros (mid & -> & Hmid)%search_inv.
  apply match_marker_inv in Hmid as (spaces & digits & -> & _ & _ & _).
  rewrite !length_app. simpl. lia.
Qed.

Lemma search_option_shorter s m :
  search option_pattern s = Some m → (length (after m) < length s)%nat.
Proof.
  intros (mid & -> & Hmid)%search_inv.
  unfold match_here, option_pattern in Hmid. cbn [run] in Hmid.
  destruct mid as [|c mid]; [done|].
  destruct (CharClass.A_to_D c); [|done].
  destruct (strip_prefix (lit ".") mid) as [s1|] eqn:Hdot; [|done].
  apply strip_prefix_Some in Hdot as ->.
  apply rep_greedy_inv in Hmid as (spaces & s2 & -> & _ & _ & Hmid).
  apply rep_lazy_inv in Hmid as (chars & s3 & -> & _ & _ & Hmid).
  destruct (or_else _ _); [|done]. injection Hmid as <- _.
  rewrite !length_app. simpl. rewrite !length_app. lia.
Qed.

(** The fuel of [split] and [findall] is never used up. *)
Lemma split_fuel_enough (fuel : nat) s :
  (length s ≤ fuel)%nat → split_fuel fuel re_marker s = split re_marker s.
Proof.
  unfold split. remember (length s) as n eqn:Hn.
  assert (length s ≤ n)%nat as Hle by lia. clear Hn.
  revert fuel s Hle. induction n as [|n IH]; intros fuel s Hle Hfuel.
  - destruct fuel as [|fuel]; [done|]. simpl.
    destruct (search re_marker s) as [m|] eqn:Hm; [|done].
    apply search_marker_shorter in Hm. lia.
  - destruct fuel as [|fuel]; [lia|]. simpl.
    destruct (search re_marker s) as [m|] eqn:Hm; [|done].
    apply search_marker_shorter in Hm.
    do 2 f_equal. apply IH; lia.
Qed.

Lemma findall_fuel_enough (fuel : nat) s :
  (length s ≤ fuel)%nat →
  findall_fuel fuel option_pattern s = findall option_pattern s.
Proof.
  unfold findall. remember (length s) as n eqn:Hn.
  assert (length s ≤ n)%nat as Hle by lia. clear Hn.
  revert fuel s Hle. induction n as [|n IH]; intros fuel s Hle Hfuel.
  - destruct fuel as [|fuel]; [done|]. simpl.
    destruct (search option_pattern s) as [m|] eqn:Hm; [|done].
    apply search_option_shorter in Hm. lia.
  - destruct fuel as [|fuel]; [lia|]. simpl.
    destruct (search option_pattern s) as [m|] eqn:Hm; [|done].
    apply search_option_shorter in Hm.
    f_equal. apply IH; lia.
Qed.

(** [split] yields one piece, and two more for every marker it finds;
    it finds no more markers than there are. *)
Lemma split_fuel_length (fuel : nat) s :
  ∃ n, length (split_fuel fuel re_marker s) = S (2 * n)
       ∧ (n ≤ count_matches re_marker s)%nat.
Proof.
  revert s. induction fuel as [|fuel IH]; intros s; simpl.
  - exists O. split; [done|lia].
  - destruct (search re_marker s) as [m|] eqn:Hm; [|exists O; split; [done|lia]].
    apply search_inv in Hm as (mid & -> & Hmid).
    pose proof Hmid as Hinv.
    apply match_marker_inv in Hinv as (spaces & digits & Hmid_eq & -> & _ & _).
    destruct (IH (after m)) as (n & Hlen & Hle).
    exists (S n). split.
    + simpl. rewrite Hlen. lia.
    + etrans; [|apply (count_matches_suffix re_marker _ mid), suffix_app_r;
                 reflexivity].
      subst mid. remember (spaces ++ digits ++ after m) as rest eqn:Hrest.
      change (lit "----Question" ++ rest)
        with ("-"%char :: lit "---Question" ++ rest) in *.
      cbn [count_matches]. rewrite Hmid.
      assert (after m `suffix_of` lit "---Question" ++ rest) as Hsuffix.
      { subst rest. do 3 apply suffix_app_r. done. }
      pose proof (count_matches_suffix re_marker _ _ Hsuffix). lia.
Qed.

Lemma pairs_ind (P : list str → Prop) :
  P [] →
  (∀ id_text, P [id_text]) →
  (∀ id_text block rest, P rest → P (id_text :: block :: rest)) →
  ∀ blocks, P blocks.
Proof.
  intros Hnil Hone Hstep blocks.
  assert (P blocks ∧ ∀ x, P (x :: blocks)) as [? _]; [|done].
  induction blocks as [|y blocks [IH1 IH2]]; [by split|].
  split; [apply IH2|]. intros x. by apply Hstep.
Qed.

Lemma blocks_loop_pairs (blocks : list str) :
  blocks_loop blocks
  = pairs blocks ≫= (λ ib, block_questions ib.1 ib.2).
Proof.
  induction blocks as [|id_text|id_text block rest IH] using pairs_ind.
  - done.
  - simpl. by rewrite app_nil_r.
  - cbn [blocks_loop pairs]. by rewrite IH.
Qed.

Lemma length_block_questions id_text block :
  (length (block_questions id_text block) ≤ 1)%nat.
Proof.
  unfold block_questions. destruct (parse_block id_text block) as [[q|]|]; simpl; lia.
Qed.

Lemma length_blocks_loop (blocks : list str) :
  (2 * length (blocks_loop blocks) ≤ S (length blocks))%nat.
Proof.
  induction blocks as [|id_text|id_text block rest IH] using pairs_ind.
  - simpl. lia.
  - pose proof (length_block_questions id_text []). simpl in *. lia.
  - pose proof (length_block_questions id_text block).
    cbn [blocks_loop]. rewrite length_app. simpl. lia.
Qed.

(** What a block must have for [parse_block] to yield a question. *)
Lemma parse_block_question id_text block q :
  parse_block id_text block = Some (Some q) →
  ∃ domain_match,
    search re_domain block = Some domain_match
    ∧ py_int id_text = Some (qid q)
    ∧ domain q = strip (group 1 domain_match)
    ∧ match search re_domain_number (domain q) with
      | Some m => py_int (group 1 m) = Some (domainNumber q)
      | None => domainNumber q = 0
      end
    ∧ questionText q = stripped_group (search re_question_text block)
    ∧ questionText q ≠ []
    ∧ options q
      = map make_option
          (findall option_pattern (stripped_group (search re_options block)))
    ∧ options q ≠ [].
Proof.
  unfold parse_block.
  destruct (py_int id_text) as [question_id|]; [|done]. cbn [mbind option_bind].
  destruct (search re_domain block) as [domain_match|]; [|done].
  intros H. exists domain_match. split; [done|]. revert H.
  destruct (search re_domain_number (strip (group 1 domain_match)))
    as [m|] eqn:Hnum.
  - destruct (py_int (group 1 m)) as [domain_number|] eqn:Hint; [|done].
    cbn [mbind option_bind].
    destruct (bool_decide _) eqn:Htext; [|done].
    destruct (bool_decide (_ ≠ [])) eqn:Hopts in |- *; [|done].
    intros [= <-]. cbn [qid domain domainNumber questionText options].
    rewrite Hnum.
    apply bool_decide_eq_true in Htext, Hopts. done.
  - cbn [mbind option_bind].
    destruct (bool_decide _) eqn:Htext; [|done].
    destruct (bool_decide (_ ≠ [])) eqn:Hopts in |- *; [|done].
    intros [= <-]. cbn [qid domain domainNumber questionText options].
    rewrite Hnum.
    apply bool_decide_eq_true in Htext, Hopts. done.
Qed.

Lemma elem_of_parse_questions content q :
  q ∈ parse_questions content →
  ∃ id_text block,
    (id_text, block) ∈ record_blocks content
    ∧ parse_block id_text block = Some (Some q).
Proof.
  unfold parse_questions. rewrite blocks_loop_pairs.
  intros ([id_text block] & Hq & Hin)%list_elem_of_bind.
  exists id_text, block. split; [done|].
  unfold block_questions in Hq. simpl in Hq.
  destruct (parse_block id_text block) as [[q'|]|];
    [|by apply elem_of_nil in Hq..].
  by apply list_elem_of_singleton in Hq as ->.
Qed.

Lemma digit_value_bounds (c : ascii) (d : Z) :
  digit_value c = Some d → 0 ≤ d ≤ 9.
Proof.
  unfold digit_value, CharClass.digit.
  destruct (_ && _) eqn:Hc; [|done]. intros [= <-].
  apply andb_true_iff in Hc as [?%Nat.leb_le ?%Nat.leb_le]. lia.
Qed.

Lemma py_int_nonneg s (v : Z) : py_int s = Some v → 0 ≤ v.
Proof.
  unfold py_int. destruct s as [|c0 s0]; [done|].
  generalize (c0 :: s0). clear. intros s.
  assert (∀ acc, match acc with Some a => 0 ≤ a | None => True end →
     foldl (λ acc c, a ← acc; d ← digit_value c; Some (10 * a + d)) acc s
     = Some v → 0 ≤ v) as Hfold; [|by apply Hfold].
  induction s as [|c s IH]; intros acc Hacc; simpl.
  - intros ->. done.
  - apply IH. destruct acc as [a|]; [|done]. simpl.
    destruct (digit_value c) as [d|] eqn:Hd; [|done]. simpl.
    apply digit_value_bounds in Hd. lia.
Qed.

(** C5: [parse_questions] is a total function whose result is what the
    record blocks yield, one after the other, a block whose processing
    raises yielding nothing; a block without [Domain:], with an empty
    question text or with no option yields nothing; and the result has
    at most as many questions as the input has record markers. *)
Theorem parse_questions_drops_unusable_blocks content :
  parse_questions content
  = record_blocks content ≫= (λ ib, block_questions ib.1 ib.2)
  ∧ (∀ id_text block,
       contains (lit "Domain:") block = false
       ∨ stripped_group (search re_question_text block) = []
       ∨ findall option_pattern (stripped_group (search re_options block)) = [] →
       block_questions id_text block = [])
  ∧ (length (parse_questions content) ≤ count_matches re_marker content)%nat.
Proof.
  split; [apply blocks_loop_pairs|]. split.
  - intros id_text block Hlacks. unfold block_questions.
    destruct (parse_block id_text block) as [[q|]|] eqn:Hq; [|done..].
    apply parse_block_question in Hq
      as (domain_match & Hdomain & _ & _ & _ & Htext & Htext_ne & Hopts & Hopts_ne).
    destruct Hlacks as [Hno_domain|[Hno_text|Hno_options]].
    + apply search_literal in Hdomain. congruence.
    + congruence.
    + rewrite Hno_options in Hopts. done.
  - unfold parse_questions, split.
    destruct (split_fuel_length (length content) content) as (n & Hlen & Hle).
    pose proof (length_blocks_loop
                  (tail (split_fuel (length content) re_marker content)))
      as Hloop.
    destruct (split_fuel (length content) re_marker content)
      as [|piece pieces]; simpl in *; lia.
Qed.

Lemma parse_questions_drops_unusable_blocks_witness :
  block_questions (lit "7") (lit "Question text: no domain here") = [].
Proof.
  destruct (parse_questions_drops_unusable_blocks []) as (_ & Hdrop & _).
  apply Hdrop. left. reflexivity.
Defined.

(** C6: the sample record parses to exactly one question, of domain 2,
    with the text [What is X?], the three options A, B and C of which
    only B is correct, its flag removed from the text, and the excerpt
    [src]. *)
Theorem parse_questions_sample_record :
  parse_questions sample_record = [sample_question]
  ∧ domainNumber sample_question = 2
  ∧ questionText sample_question = lit "What is X?"
  ∧ (letter <$> options sample_question) = [lit "A"; lit "B"; lit "C"]
  ∧ (isCorrect <$> options sample_question) = [false; true; false]
  ∧ (text <$> options sample_question) = [lit "foo"; lit "bar"; lit "baz"]
  ∧ excerpt sample_question = lit "src".
Proof. split; [vm_compute; reflexivity|]. by repeat split. Qed.

(** C7 (as stated): a label [Domain 9] gives the domain number 9, which
    is not in [0,5]; and a label [Domain 0] gives 0 although an integer
    follows the word. *)
Lemma domain_number_not_bounded :
  (∃ q, q ∈ parse_questions (record_of_domain "Domain 9: X")
        ∧ domainNumber q = 9 ∧ ¬ (0 ≤ domainNumber q ≤ 5))
  ∧ (∃ q, q ∈ parse_questions (record_of_domain "Domain 0: X")
          ∧ domainNumber q = 0
          ∧ is_Some (search re_domain_number (domain q))).
Proof.
  split.
  - eexists. split; [vm_compute; constructor|]. simpl. split; [done|lia].
  - eexists. split; [vm_compute; constructor|]. split; [done|].
    vm_compute. eauto.
Qed.

(** C7 (amended): the domain number of a parsed question is an integer
    that is not negative: the number written by the first digits that
    follow the word [Domain] in the domain label, and 0 when the label has
    none. *)
Theorem domain_number_of_parsed content q :
  q ∈ parse_questions content →
  0 ≤ domainNumber q
  ∧ match search re_domain_number (domain q) with
    | Some m => py_int (group 1 m) = Some (domainNumber q)
    | None => domainNumber q = 0
    end.
Proof.
  intros (id_text & block & _ & Hq)%elem_of_parse_questions.
  apply parse_block_question in Hq as (_ & _ & _ & _ & Hnumber & _).
  split; [|done].
  destruct (search re_domain_number (domain q)) as [m|].
  - by eapply py_int_nonneg.
  - lia.
Qed.

Lemma domain_number_of_parsed_witness :
  0 ≤ domainNumber sample_question
  ∧ match search re_domain_number (domain sample_question) with
    | Some m => py_int (group 1 m) = Some (domainNumber sample_question)
    | None => domainNumber sample_question = 0
    end.
Proof.
  apply (domain_number_of_parsed sample_record sample_question).
  vm_compute. constructor.
Defined.

End Parser.

(** ** More on exam assembly *)

Section AssemblyMore.

Implicit Types (questions exam : list Question) (g : Random.state).

Lemma length_pool_others questions (domain : Z) :
  (length (get_questions_by_domain questions domain)
   + length (questions_outside questions domain))%nat
  = length questions.
Proof.
  rewrite <- length_app.
  apply Permutation_length, (filter_app_complement _ questions).
Qed.

Lemma elem_of_concat {A} (x : A) (ls : list (list A)) :
  x ∈ concat ls ↔ ∃ l, x ∈ l ∧ l ∈ ls.
Proof.
  induction ls as [|l ls IH]; simpl.
  - split; [by intros ?%elem_of_nil|]. by intros (l & _ & ?%elem_of_nil).
  - rewrite elem_of_app, IH. split.
    + intros [Hx|(l' & Hx & Hl')].
      * exists l. split; [done|by left].
      * exists l'. split; [done|by right].
    + intros (l' & Hx & [->|Hl']%elem_of_cons); [by left|].
      right. by exists l'.
Qed.

Lemma contribution_size_le questions (entry : Z * nat) :
  (contribution_size questions entry ≤ entry.2)%nat.
Proof. unfold contribution_size. destruct (decide _); lia. Qed.

Lemma contribution_elem_of questions (entry : Z * nat) pick q :
  contribution questions entry pick → q ∈ pick → q ∈ questions.
Proof.
  unfold contribution. destruct (decide _) as [_|_].
  - intros [Hsub _] Hq. eapply elem_of_submseteq in Hq; [|exact Hsub].
    unfold get_questions_by_domain in Hq.
    by apply list_elem_of_filter in Hq as [_ ?].
  - intros (extras & -> & Hsub & _) [Hq|Hq]%elem_of_app.
    + unfold get_questions_by_domain in Hq.
      by apply list_elem_of_filter in Hq as [_ ?].
    + eapply elem_of_submseteq in Hq; [|exact Hsub].
      unfold questions_outside in Hq.
      by apply list_elem_of_filter in Hq as [_ ?].
Qed.

(** X1: whatever the corpus and the state of the random source,
    [select_exam_questions] returns (no call of [random.sample] asks for
    more than its population holds), the exam has at most 152 questions,
    and each of them is a question of the corpus. *)
Theorem select_exam_questions_returns questions g :
  ∃ exam g',
    select_exam_questions questions g = Some (exam, g')
    ∧ (length exam ≤ TOTAL_EXAM_QUESTIONS)%nat
    ∧ ∀ q, q ∈ exam → q ∈ questions.
Proof.
  destruct (select_exam_questions_spec questions g)
    as (exam & g' & picks & Hsel & Hperm & Hpicks).
  exists exam, g'. split; [done|]. split.
  - rewrite Hperm, length_concat_sum.
    rewrite (Forall2_sum_eq (contribution_size questions) length
               EXAM_DISTRIBUTION picks).
    + pose proof (contribution_size_le questions) as Hle.
      unfold EXAM_DISTRIBUTION, TOTAL_EXAM_QUESTIONS. csimpl.
      pose proof (Hle (1, 32%nat)). pose proof (Hle (2, 30%nat)).
      pose proof (Hle (3, 32%nat)). pose proof (Hle (4, 29%nat)).
      pose proof (Hle (5, 29%nat)). simpl in *. lia.
    + eapply Forall2_impl; [exact Hpicks|].
      intros entry pick. apply contribution_length.
  - intros q Hq. rewrite Hperm in Hq.
    apply elem_of_concat in Hq as (pick & Hq & Hpick).
    apply list_elem_of_lookup in Hpick as [i Hi].
    destruct (Forall2_lookup_r _ _ _ _ _ Hpicks Hi) as (entry & _ & Hc).
    by eapply contribution_elem_of.
Qed.

Lemma exam_size_zero_iff questions :
  sum_list (contribution_size questions <$> EXAM_DISTRIBUTION) = 0%nat
  ↔ length questions = 0%nat.
Proof.
  unfold EXAM_DISTRIBUTION. csimpl. unfold contribution_size. simpl.
  pose proof (length_pool_others questions 1).
  pose proof (length_pool_others questions 2).
  pose proof (length_pool_others questions 3).
  pose proof (length_pool_others questions 4).
  pose proof (length_pool_others questions 5).
  repeat case_decide; lia.
Qed.

(** X2: the exam is empty exactly when the corpus is; a corpus with a
    single question already gives an exam that is not empty. *)
Theorem select_exam_questions_empty_iff questions g :
  ∃ exam g',
    select_exam_questions questions g = Some (exam, g')
    ∧ (exam = [] ↔ questions = []).
Proof.
  destruct (select_exam_questions_length questions g)
    as (exam & g' & Hsel & Hlen).
  exists exam, g'. split; [done|].
  rewrite <- !length_zero_iff_nil, Hlen. apply exam_size_zero_iff.
Qed.

(** X3: a domain that is short of its quota is taken whole: all its
    questions are in the exam, each as often as in the corpus at least. *)
Theorem short_domain_taken_whole questions g (domain : Z) (count : nat) :
  (domain, count) ∈ EXAM_DISTRIBUTION →
  (length (get_questions_by_domain questions domain) < count)%nat →
  ∃ exam g',
    select_exam_questions questions g = Some (exam, g')
    ∧ get_questions_by_domain questions domain ⊆+ exam.
Proof.
  intros Hin Hshort.
  destruct (select_exam_questions_spec questions g)
    as (exam & g' & picks & Hsel & Hperm & Hpicks).
  exists exam, g'. split; [done|].
  apply list_elem_of_lookup in Hin as [i Hi].
  destruct (Forall2_lookup_l _ _ _ _ _ Hpicks Hi) as (pick & Hpick & Hc).
  unfold contribution in Hc. simpl in Hc.
  rewrite decide_False in Hc by lia.
  destruct Hc as (extras & -> & _ & _).
  rewrite Hperm.
  apply take_drop_middle in Hpick. rewrite <- Hpick.
  rewrite concat_app, concat_cons.
  apply submseteq_inserts_l, submseteq_inserts_r, submseteq_inserts_r.
  done.
Qed.

Lemma short_domain_taken_whole_witness :
  ∃ exam g',
    select_exam_questions corpus_short [2; 7; 1]%nat = Some (exam, g')
    ∧ get_questions_by_domain corpus_short 4 ⊆+ exam.
Proof.
  apply (short_domain_taken_whole corpus_short [2; 7; 1]%nat 4 29%nat).
  - unfold EXAM_DISTRIBUTION. set_solver.
  - vm_compute. lia.
Defined.

(** X4: when the corpus is smaller than the exam it fills, a question is
    repeated: with every short domain covered and fewer than 152
    questions in the corpus, the exam has 152 questions and is not free
    of duplicates. *)
Theorem small_corpus_repeats_questions questions g :
  (∀ domain count, (domain, count) ∈ EXAM_DISTRIBUTION →
     (length (get_questions_by_domain questions domain) < count)%nat →
     (count - length (get_questions_by_domain questions domain)
      ≤ length (questions_outside questions domain))%nat) →
  (length questions < TOTAL_EXAM_QUESTIONS)%nat →
  ∃ exam g',
    select_exam_questions questions g = Some (exam, g')
    ∧ length exam = TOTAL_EXAM_QUESTIONS
    ∧ ¬ NoDup exam.
Proof.
  intros Hcover Hsmall.
  destruct (select_exam_questions_spec questions g)
    as (exam & g' & picks & Hsel & Hperm & Hpicks).
  assert (length exam = TOTAL_EXAM_QUESTIONS) as Hlen.
  { rewrite Hperm, length_concat_sum.
    rewrite (Forall2_sum_eq snd length EXAM_DISTRIBUTION picks); [done|].
    eapply Forall2_impl.
    - apply (Forall2_with_l
               (λ entry,
                  (length (get_questions_by_domain questions entry.1)
                   < entry.2)%nat →
                  (entry.2 - length (get_questions_by_domain questions entry.1)
                   ≤ length (questions_outside questions entry.1))%nat)
               (contribution questions)); [|exact Hpicks].
      apply Forall_forall. intros [domain count] Hin. by apply Hcover.
    - intros entry pick [Hc Hpick].
      rewrite (contribution_length _ _ _ Hpick). unfold contribution_size.
      destruct (decide _) as [?|Hshort]; [done|].
      specialize (Hc ltac:(lia)). simpl. lia. }
  exists exam, g'. split; [done|]. split; [done|].
  intros Hnd.
  assert (exam ⊆+ questions) as Hsub.
  { apply NoDup_submseteq; [done|].
    intros q Hq. rewrite Hperm in Hq.
    apply elem_of_concat in Hq as (pick & Hq & Hpick).
    apply list_elem_of_lookup in Hpick as [i Hi].
    destruct (Forall2_lookup_r _ _ _ _ _ Hpicks Hi) as (entry & _ & Hc).
    by eapply contribution_elem_of. }
  apply submseteq_length in Hsub. lia.
Qed.

Lemma small_corpus_repeats_questions_witness :
  ∃ exam g',
    select_exam_questions corpus_32 [5; 3]%nat = Some (exam, g')
    ∧ length exam = TOTAL_EXAM_QUESTIONS
    ∧ ¬ NoDup exam.
Proof.
  apply (small_corpus_repeats_questions corpus_32 [5; 3]%nat).
  - unfold EXAM_DISTRIBUTION. intros domain count Hin Hshort.
    repeat (apply elem_of_cons in Hin as [Heq|Hin];
            [injection Heq as -> ->; vm_compute; lia|]).
    by apply elem_of_nil in Hin.
  - vm_compute. lia.
Defined.

(** X5: a study session of [n] questions on a domain that holds at least
    [n] gets [n] questions of that domain, none taken twice; asking for
    more than the domain holds raises [ValueError]. *)
Theorem select_study_questions_spec questions (domain_number : Z)
    (study_num_questions : nat) g :
  if decide (study_num_questions
             ≤ length (get_questions_by_domain questions domain_number))%nat
  then ∃ selected g',
      select_study_questions questions domain_number study_num_questions g
      = Some (selected, g')
      ∧ length selected = study_num_questions
      ∧ selected ⊆+ get_questions_by_domain questions domain_number
      ∧ Forall (λ q, domainNumber q = domain_number ∧ q ∈ questions) selected
  else select_study_questions questions domain_number study_num_questions g
       = None.
Proof.
  unfold select_study_questions.
  destruct (decide _) as [Hle|Hgt].
  - destruct (sample_spec _ _ g Hle) as (selected & g' & Hs & Hlen & Hsub).
    exists selected, g'. repeat split; [done..|].
    apply Forall_forall. intros q Hq.
    eapply elem_of_submseteq in Hq; [|exact Hsub].
    unfold get_questions_by_domain in Hq.
    by apply list_elem_of_filter in Hq.
  - unfold Random.sample. by rewrite decide_False.
Qed.

End AssemblyMore.

(** ** The domain breakdown *)

Section Breakdown.

Implicit Types (questions : list Question) (counts : gmap Z nat).

Lemma count_question_lookup counts (q : Question) (d : Z) :
  count_question counts q !! d
  = if decide (domainNumber q = d)
    then Some (default 0%nat (counts !! d) + 1)%nat
    else counts !! d.
Proof.
  unfold count_question. destruct (decide (domainNumber q = d)) as [<-|Hne].
  - by rewrite lookup_insert_eq.
  - by rewrite lookup_insert_ne.
Qed.

Lemma foldl_count_question_lookup counts questions (d : Z) :
  foldl count_question counts questions !! d
  = match length (get_questions_by_domain questions d) with
    | O => counts !! d
    | S n => Some (default 0%nat (counts !! d) + S n)%nat
    end.
Proof.
  revert counts. induction questions as [|q questions IH]; intros counts.
  { done. }
  cbn [foldl]. rewrite IH, count_question_lookup.
  unfold get_questions_by_domain. rewrite filter_cons.
  destruct (decide (domainNumber q = d)) as [Hq|Hq]; simpl.
  - destruct (length (filter _ questions)); simpl; f_equal; lia.
  - done.
Qed.

Lemma count_question_sum counts (q : Question) :
  sum_list ((map_to_list (count_question counts q)).*2)
  = S (sum_list ((map_to_list counts).*2)).
Proof.
  unfold count_question.
  destruct (counts !! domainNumber q) as [n|] eqn:Hd; simpl.
  - rewrite <- (insert_delete_eq counts).
    rewrite map_to_list_insert by apply lookup_delete_eq.
    rewrite <- (map_to_list_delete counts _ _ Hd). csimpl. lia.
  - rewrite map_to_list_insert by done. csimpl. lia.
Qed.

Lemma foldl_count_question_sum counts questions :
  sum_list ((map_to_list (foldl count_question counts questions)).*2)
  = (sum_list ((map_to_list counts).*2) + length questions)%nat.
Proof.
  revert counts. induction questions as [|q questions IH]; intros counts.
  - simpl. lia.
  - cbn [foldl]. rewrite IH, count_question_sum. simpl. lia.
Qed.

Lemma elem_of_domain_breakdown questions (d : Z) (n : nat) :
  (d, n) ∈ domain_breakdown questions ↔ domain_counts questions !! d = Some n.
Proof.
  unfold domain_breakdown. rewrite list_elem_of_fmap. split.
  - intros (d' & [= -> ->] & Hd').
    rewrite merge_sort_Permutation, elem_of_elements, elem_of_dom in Hd'.
    by destruct Hd' as [n ->].
  - intros Hn. exists d. rewrite Hn. split; [done|].
    rewrite merge_sort_Permutation, elem_of_elements, elem_of_dom. eauto.
Qed.

Lemma domain_breakdown_keys questions :
  (domain_breakdown questions).*1
  = merge_sort Z.le (elements (dom (domain_counts questions))).
Proof.
  unfold domain_breakdown. rewrite <- list_fmap_compose.
  rewrite <- (list_fmap_id (merge_sort _ _)) at 2.
  by apply list_fmap_ext.
Qed.

(** X6: the breakdown shown after loading lists every domain number that
    occurs in the corpus once, in increasing order, with the number of
    questions [get_questions_by_domain] finds for it, and the numbers add
    up to the number of questions loaded. *)
Theorem domain_breakdown_spec questions :
  Sorted Z.le (domain_breakdown questions).*1
  ∧ NoDup (domain_breakdown questions).*1
  ∧ (∀ d n, (d, n) ∈ domain_breakdown questions
            ↔ n = length (get_questions_by_domain questions d) ∧ (0 < n)%nat)
  ∧ sum_list (domain_breakdown questions).*2 = length questions.
Proof.
  assert (NoDup (domain_breakdown questions).*1) as Hnd.
  { rewrite domain_breakdown_keys, merge_sort_Permutation.
    apply NoDup_elements. }
  split; [|split; [done|split]].
  - rewrite domain_breakdown_keys. apply Sorted_merge_sort; apply _.
  - intros d n. rewrite elem_of_domain_breakdown.
    unfold domain_counts. rewrite foldl_count_question_lookup, lookup_empty.
    destruct (length (get_questions_by_domain questions d)); simpl.
    + split; [done|lia].
    + split; [intros [= <-]; lia|intros [-> _]; done].
  - assert (domain_breakdown questions
            ≡ₚ map_to_list (domain_counts questions)) as ->.
    { apply NoDup_Permutation.
      - by eapply NoDup_fmap_1.
      - apply NoDup_map_to_list.
      - intros [d n]. by rewrite elem_of_domain_breakdown, elem_of_map_to_list. }
    unfold domain_counts. rewrite foldl_count_question_sum.
    by rewrite map_to_list_empty.
Qed.

End Breakdown.

(** ** More on scoring *)

Section ScoringMore.

Implicit Types (user_answers : gmap Z answer) (question : Question).
Implicit Types (exam_questions : list Question).

(** Case analysis on every integer comparison of the goal. *)
Ltac leb_cases :=
  repeat match goal with
         | |- context [?a <=? ?b] => destruct (Z.leb_spec a b)
         end;
  (done || lia).

Lemma NoDup_fmap_filter {A B} (f : A → B) (P : A → Prop)
    `{∀ x, Decision (P x)} (l : list A) :
  NoDup (f <$> l) → NoDup (f <$> filter P l).
Proof.
  induction l as [|x l IH]; [done|]. csimpl.
  intros [Hx Hl]%NoDup_cons. rewrite filter_cons.
  destruct (decide (P x)); [|by apply IH]. csimpl.
  apply NoDup_cons. split; [|by apply IH].
  intros (y & Hy & Hin)%list_elem_of_fmap. apply Hx.
  apply list_elem_of_fmap. exists y. split; [done|].
  by apply list_elem_of_filter in Hin as [_ ?].
Qed.

Lemma enumerate_fst {A} (start : nat) (l : list A) :
  (enumerate start l).*1 = seq start (length l).
Proof. unfold enumerate. apply fst_zip. by rewrite length_seq. Qed.

Lemma credited_answered question user_answers (i : nat) :
  credited question (get_answer user_answers i) = true →
  is_Some (user_answers !! Z.of_nat i).
Proof.
  unfold get_answer. destruct (user_answers !! Z.of_nat i); [eauto|].
  by rewrite credited_none.
Qed.

(** The counter stays between zero and the number of entries of the
    answer map, and below the number of questions. *)
Lemma score_loop_bounds user_answers exam_questions :
  0 ≤ score_loop user_answers 0 exam_questions 0
  ∧ score_loop user_answers 0 exam_questions 0
    ≤ Z.of_nat (length exam_questions)
  ∧ score_loop user_answers 0 exam_questions 0
    ≤ Z.of_nat (size user_answers).
Proof.
  rewrite score_loop_count.
  set (P := λ iq : nat * Question,
              credited iq.2 (get_answer user_answers iq.1) = true).
  split; [lia|]. split.
  - pose proof (length_filter P (enumerate 0 exam_questions)) as Hle.
    unfold enumerate in Hle at 2.
    rewrite length_zip_with, length_seq in Hle. lia.
  - apply inj_le.
    rewrite <- (length_fmap (Z.of_nat ∘ fst)
                  (filter P (enumerate 0 exam_questions))).
    rewrite <- size_dom. unfold size, set_size. simpl.
    apply submseteq_length, NoDup_submseteq.
    + rewrite list_fmap_compose. apply NoDup_fmap_2; [apply _|].
      apply NoDup_fmap_filter. rewrite enumerate_fst. apply NoDup_seq.
    + intros k ([i q] & -> & Hiq)%list_elem_of_fmap.
      apply list_elem_of_filter in Hiq as [Hcredit _].
      apply elem_of_elements, elem_of_dom. simpl.
      by eapply credited_answered.
Qed.

(** X7: the number of correct answers is between zero and the number of
    questions, and never exceeds the number of entries of the answer
    map. *)
Theorem calculate_score_bounds exam_questions user_answers :
  ∃ correct total percentage passed,
    calculate_score exam_questions user_answers
    = Some (correct, total, percentage, passed)
    ∧ 0 ≤ correct ≤ total
    ∧ correct ≤ Z.of_nat (size user_answers).
Proof.
  destruct (calculate_score_some exam_questions user_answers)
    as (percentage & -> & _).
  pose proof (score_loop_bounds user_answers exam_questions) as (? & ? & ?).
  do 4 eexists. split; [done|]. lia.
Qed.

(** X8: for an exam of at most 152 questions the rounding of the
    percentage does not move the pass mark: [passed] holds exactly when
    four fifths of the questions are answered correctly, which for the
    152 questions of a practice exam means [PASSING_SCORE] of them. *)
Theorem calculate_score_pass_mark exam_questions user_answers :
  exam_questions ≠ [] →
  (length exam_questions ≤ TOTAL_EXAM_QUESTIONS)%nat →
  ∃ correct total percentage passed,
    calculate_score exam_questions user_answers
    = Some (correct, total, percentage, passed)
    ∧ passed = (4 * total <=? 5 * correct)
    ∧ (if decide (length exam_questions = TOTAL_EXAM_QUESTIONS)
       then passed = (PASSING_SCORE <=? correct) else True).
Proof.
  intros Hne Hle.
  destruct (calculate_score_some exam_questions user_answers)
    as (percentage & -> & ->).
  pose proof (score_loop_bounds user_answers exam_questions) as (? & ? & _).
  assert (0 < Z.of_nat (length exam_questions)) as Hpos.
  { destruct exam_questions; [done|simpl; lia]. }
  rewrite decide_True by done.
  do 4 eexists. split; [done|].
  rewrite passed_is_exact by lia.
  set (correct := score_loop user_answers 0 exam_questions 0) in *.
  split.
  - leb_cases.
  - destruct (decide _) as [Hfull|]; [|done]. rewrite Hfull.
    unfold TOTAL_EXAM_QUESTIONS, PASSING_SCORE. leb_cases.
Qed.

Lemma calculate_score_pass_mark_witness :
  ∃ correct total percentage passed,
    calculate_score (replicate 10 question_B) (answers_B 8)
    = Some (correct, total, percentage, passed)
    ∧ passed = (4 * total <=? 5 * correct)
    ∧ (if decide (length (replicate 10 question_B) = TOTAL_EXAM_QUESTIONS)
       then passed = (PASSING_SCORE <=? correct) else True).
Proof.
  apply (calculate_score_pass_mark (replicate 10 question_B) (answers_B 8)).
  - discriminate.
  - vm_compute. lia.
Defined.

Lemma credited_insert_other user_answers (i j : nat) (a : answer) question :
  i ≠ j →
  credited question (get_answer (<[Z.of_nat i := a]> user_answers) j)
  = credited question (get_answer user_answers j).
Proof.
  intros Hne. unfold get_answer. by rewrite lookup_insert_ne by lia.
Qed.

(** X9: recording an answer at a position changes the number of correct
    answers by what that position earns after, less what it earned
    before; the other positions count as they did. *)
Theorem calculate_score_overwrite exam_questions user_answers (i : nat)
    question (a : answer) :
  exam_questions !! i = Some question →
  ∃ correct correct' total percentage percentage' passed passed',
    calculate_score exam_questions user_answers
    = Some (correct, total, percentage, passed)
    ∧ calculate_score exam_questions (<[Z.of_nat i := a]> user_answers)
      = Some (correct', total, percentage', passed')
    ∧ correct'
      = correct - Z.b2z (credited question (get_answer user_answers i))
        + Z.b2z (credited question a).
Proof.
  intros Hi.
  destruct (calculate_score_some exam_questions user_answers)
    as (percentage & -> & _).
  destruct (calculate_score_some exam_questions
              (<[Z.of_nat i := a]> user_answers))
    as (percentage' & -> & _).
  do 7 eexists. split; [done|]. split; [done|].
  pose proof (take_drop_middle _ _ _ Hi) as Hsplit.
  assert (length (take i exam_questions) = i) as Hlen.
  { apply length_take_le. apply lookup_lt_Some in Hi. lia. }
  rewrite <- Hsplit, !score_loop_split, Hlen.
  rewrite (score_loop_ext (<[Z.of_nat i := a]> user_answers) user_answers
             (take i exam_questions) 0).
  2:{ intros j q Hj. apply credited_insert_other. lia. }
  rewrite (score_loop_ext (<[Z.of_nat i := a]> user_answers) user_answers
             (drop (S i) exam_questions) (S i)).
  2:{ intros j q Hj. apply credited_insert_other. lia. }
  assert (get_answer (<[Z.of_nat i := a]> user_answers) i = a) as ->
    by (unfold get_answer; by rewrite lookup_insert_eq).
  destruct (credited question a), (credited question (get_answer _ i));
    simpl; lia.
Qed.

Lemma calculate_score_overwrite_witness :
  ∃ correct correct' total percentage percentage' passed passed',
    calculate_score (replicate 10 question_B) (answers_B 8)
    = Some (correct, total, percentage, passed)
    ∧ calculate_score (replicate 10 question_B)
        (<[Z.of_nat 3 := PyStr (lit "A")]> (answers_B 8))
      = Some (correct', total, percentage', passed')
    ∧ correct'
      = correct - Z.b2z (credited question_B (get_answer (answers_B 8) 3))
        + Z.b2z (credited question_B (PyStr (lit "A"))).
Proof.
  apply (calculate_score_overwrite (replicate 10 question_B) (answers_B 8)
           3 question_B (PyStr (lit "A"))).
  reflexivity.
Defined.

Lemma review_is_correct_credited question (user_answer : answer) :
  review_is_correct question user_answer = credited question user_answer.
Proof.
  unfold review_is_correct, credited.
  destruct (find isCorrect (options question)), (truthy user_answer); done.
Qed.

Lemma study_is_correct_credited question (selected_letter : str) :
  selected_letter ≠ [] →
  study_is_correct question selected_letter
  = credited question (PyStr selected_letter).
Proof.
  intros Hne. unfold study_is_correct, credited. simpl.
  rewrite bool_decide_true by done. simpl.
  destruct (find isCorrect (options question)) as [o|]; [|done].
  apply bool_decide_ext. split; [by intros ->|by intros [= ->]].
Qed.

(** X10: the review screen and the score agree: the number of questions
    whose header [render_review] marks as correct is the number of correct
    answers [calculate_score] reports. *)
Theorem review_marks_match_score exam_questions user_answers :
  ∃ total percentage passed,
    calculate_score exam_questions user_answers
    = Some (Z.of_nat (length (filter
              (λ iq, review_is_correct iq.2 (get_answer user_answers iq.1)
                     = true)
              (enumerate 0 exam_questions))),
            total, percentage, passed).
Proof.
  destruct (calculate_score_some exam_questions user_answers)
    as (percentage & -> & _).
  do 3 eexists. rewrite score_loop_count. repeat f_equal.
  apply list_filter_iff. intros [i q]. simpl.
  by rewrite review_is_correct_credited.
Qed.

End ScoringMore.

(** ** More on the parser *)

Section ParserMore.

Implicit Types (content block id_text s : str) (q : Question).

Lemma lstrip_head s (c : ascii) :
  head (lstrip s) = Some c → CharClass.space c = false.
Proof.
  induction s as [|c0 s IH]; simpl; [done|].
  destruct (CharClass.space c0) eqn:Hc0; [done|]. simpl. by intros [= <-].
Qed.

Lemma lstrip_last s (c : ascii) : last (lstrip s) = Some c → last s = Some c.
Proof.
  induction s as [|c0 s IH]; simpl; [done|].
  destruct (CharClass.space c0); [|done].
  intros Hc. rewrite last_cons, (IH Hc). done.
Qed.

Lemma rev_reverse {A} (l : list A) : rev l = reverse l.
Proof. unfold reverse. apply rev_alt. Qed.

Lemma strip_trimmed s : trimmed (strip s).
Proof.
  unfold trimmed, strip, rstrip. rewrite !rev_reverse. split; intros c.
  - rewrite head_reverse. intros Hc%lstrip_last.
    rewrite last_reverse in Hc. by apply lstrip_head in Hc.
  - rewrite last_reverse. apply lstrip_head.
Qed.

Lemma stripped_group_trimmed (m : option found) : trimmed (stripped_group m).
Proof. destruct m; [apply strip_trimmed|]. by split. Qed.

(** One match of the option pattern: a letter from A to D and a text. *)
Lemma match_option_inv s rest (caps : list str) :
  match_here option_pattern s = Some (rest, caps) →
  ∃ c t, CharClass.A_to_D c = true ∧ caps = [[c]; t] ∧ t ≠ [].
Proof.
  unfold match_here, option_pattern. cbn [run].
  destruct s as [|c s]; [done|].
  destruct (CharClass.A_to_D c) eqn:Hc; [|done].
  destruct (strip_prefix (lit ".") s) as [s1|] eqn:Hdot; [|done].
  intros (spaces & s2 & -> & _ & _ & Hmid)%rep_greedy_inv.
  apply rep_lazy_inv in Hmid as (chars & s3 & -> & _ & Hlen & Hmid).
  destruct (or_else _ _); [|done]. injection Hmid as <- <-.
  exists c, chars. split; [done|]. split.
  - cbn [app]. f_equal.
    + replace (S (length s) - length s)%nat with 1%nat by lia. done.
    + rewrite length_app.
      replace (length chars + length s3 - length s3)%nat
        with (length chars) by lia.
      by rewrite take_app_length.
  - intros ->. simpl in Hlen. lia.
Qed.

Lemma findall_option_inv (fuel : nat) s :
  Forall (λ m, ∃ c t, CharClass.A_to_D c = true ∧ m = [[c]; t] ∧ t ≠ [])
    (findall_fuel fuel option_pattern s).
Proof.
  revert s. induction fuel as [|fuel IH]; intros s; simpl; [done|].
  destruct (search option_pattern s) as [m|] eqn:Hm; [|done].
  constructor; [|apply IH].
  apply search_inv in Hm as (mid & _ & Hmid). by eapply match_option_inv.
Qed.

(** X11: every question [parse_questions] returns has a question text
    that is not empty and at least one option; the letter of each option
    is one character from A to D; and the domain label, the question
    text, the excerpt and the text of each option have no white space at
    either end. *)
Theorem parsed_question_well_formed content q :
  q ∈ parse_questions content →
  questionText q ≠ []
  ∧ options q ≠ []
  ∧ Forall (λ o, (∃ c, letter o = [c] ∧ CharClass.A_to_D c = true)
                 ∧ trimmed (text o)) (options q)
  ∧ trimmed (domain q) ∧ trimmed (questionText q) ∧ trimmed (excerpt q).
Proof.
  intros (id_text & block & _ & Hq)%elem_of_parse_questions.
  pose proof Hq as Hfields.
  apply parse_block_question in Hfields
    as (domain_match & _ & _ & Hdomain & _ & Htext & Htext_ne & Hopts & Hopts_ne).
  split; [done|]. split; [done|]. split; [|split; [|split]].
  - rewrite Hopts. apply Forall_fmap.
    eapply Forall_impl; [apply findall_option_inv|].
    intros m (c & t & Hc & -> & _). simpl. split; [by exists c|].
    unfold make_option. simpl. apply strip_trimmed.
  - rewrite Hdomain. apply strip_trimmed.
  - rewrite Htext. apply stripped_group_trimmed.
  - revert Hq. unfold parse_block.
    destruct (py_int id_text); [|done]. cbn [mbind option_bind].
    destruct (search re_domain block); [|done].
    destruct (match search re_domain_number _ with
              | Some m => py_int (group 1 m)
              | None => Some 0
              end); [|done].
    cbn [mbind option_bind]. destruct (_ && _); [|done].
    intros [= <-]. simpl. apply stripped_group_trimmed.
Qed.

Lemma parsed_question_well_formed_witness :
  questionText sample_question ≠ []
  ∧ options sample_question ≠ []
  ∧ Forall (λ o, (∃ c, letter o = [c] ∧ CharClass.A_to_D c = true)
                 ∧ trimmed (text o)) (options sample_question)
  ∧ trimmed (domain sample_question)
  ∧ trimmed (questionText sample_question)
  ∧ trimmed (excerpt sample_question).
Proof.
  apply (parsed_question_well_formed sample_record sample_question).
  vm_compute. constructor.
Defined.

Lemma block_questions_ids id_text block :
  (qid <$> block_questions id_text block)
  `sublist_of` option_list (py_int id_text).
Proof.
  unfold block_questions.
  destruct (parse_block id_text block) as [[q|]|] eqn:Hq;
    [|apply sublist_nil_l..].
  apply parse_block_question in Hq as (_ & _ & -> & _). done.
Qed.

(** X12: the questions come out in the order of their records, each with
    the number of its marker as id: the ids of the result are, in order,
    among the marker numbers of the input. *)
Theorem parsed_ids_in_record_order content :
  (qid <$> parse_questions content)
  `sublist_of` omap (λ ib, py_int ib.1) (record_blocks content).
Proof.
  unfold parse_questions, record_blocks. rewrite blocks_loop_pairs.
  induction (pairs (tail (split re_marker content))) as [|[i b] l IH];
    [done|].
  csimpl. rewrite fmap_app.
  pose proof (block_questions_ids i b) as Hids.
  destruct (py_int i) as [v|]; simpl in Hids |- *.
  - by apply (sublist_app _ [v]).
  - apply sublist_nil_r in Hids as ->. done.
Qed.

(** X13: an input in which the literal [----Question] does not occur
    yields no question. *)
Theorem no_marker_no_question content :
  contains (lit "----Question") content = false →
  parse_questions content = [].
Proof.
  intros Hnone. unfold parse_questions, split.
  assert (search re_marker content = None) as Hsearch.
  { destruct (search re_marker content) as [m|] eqn:Hm; [|done].
    apply search_literal in Hm. congruence. }
  destruct (length content); simpl; [done|]. by rewrite Hsearch.
Qed.

Lemma no_marker_no_question_witness :
  parse_questions (lit "Domain: Domain 1: X") = [].
Proof.
  apply (no_marker_no_question (lit "Domain: Domain 1: X")). reflexivity.
Defined.

End ParserMore.

(** ** Decimal numbers read back *)

Section Decimal.

Let step (acc : option Z) (c : ascii) : option Z :=
  a ← acc; d ← digit_value c; Some (10 * a + d).

(** Evaluates the code of a character of the goal. *)
Ltac eval_codes :=
  repeat match goal with
         | |- context [Z.of_nat (nat_of_ascii ?c)] =>
             let v := eval vm_compute in (Z.of_nat (nat_of_ascii c)) in
             change (Z.of_nat (nat_of_ascii c)) with v
         end.

Lemma foldl_of_uint_acc (d : Decimal.uint) (acc : positive) :
  foldl step (Some (Z.pos acc)) (lit (NilEmpty.string_of_uint d))
  = Some (Z.pos (Pos.of_uint_acc d acc)).
Proof.
  revert acc. induction d; intros acc; simpl; [done|..];
    (etrans; [|apply IHd]); f_equal; f_equal; eval_codes; lia.
Qed.

Lemma foldl_of_uint (d : Decimal.uint) :
  foldl step (Some 0) (lit (NilEmpty.string_of_uint d))
  = Some (Z.of_N (Pos.of_uint d)).
Proof.
  induction d; simpl; [done|exact IHd|..];
    apply (foldl_of_uint_acc d).
Qed.

Lemma string_of_uint_digits (d : Decimal.uint) :
  Forall (λ c, CharClass.digit c = true) (lit (NilEmpty.string_of_uint d)).
Proof. induction d; simpl; [done|..]; by constructor. Qed.

Lemma decimal_digits (n : Z) :
  Forall (λ c, CharClass.digit c = true) (decimal n) ∧ decimal n ≠ [].
Proof.
  unfold decimal.
  destruct (N.to_uint (Z.to_N n)) eqn:Hd; simpl;
    (split; [|done]); try (by repeat constructor);
    constructor; (done || apply string_of_uint_digits).
Qed.

(** [int(str(n)) == n] *)
Lemma py_int_decimal (n : Z) : 0 ≤ n → py_int (decimal n) = Some n.
Proof.
  intros Hn. unfold py_int.
  destruct (decimal n) as [|c s] eqn:Hs; [by apply decimal_digits in Hs|].
  rewrite <- Hs. clear c s Hs. unfold decimal.
  pose proof (DecimalN.Unsigned.of_to (Z.to_N n)) as Hback.
  unfold N.of_uint in Hback.
  destruct (N.to_uint (Z.to_N n)) as [|d|d|d|d|d|d|d|d|d|d] eqn:Hd;
    [simpl in *; f_equal; eval_codes; lia|..];
    (change (NilZero.string_of_uint ?u) with (NilEmpty.string_of_uint u);
     etrans; [apply foldl_of_uint|]; by rewrite Hback, Z2N.id).
Qed.

Lemma py_int_format_02d (n : Z) : 0 ≤ n → py_int (format_02d n) = Some n.
Proof.
  intros Hn. unfold format_02d.
  destruct (Z.ltb_spec n 0); [lia|].
  destruct (length (decimal n) <? 2)%nat; [|by apply py_int_decimal].
  pose proof (py_int_decimal n Hn) as Hint.
  destruct (decimal n) as [|c s] eqn:Hs; [by apply decimal_digits in Hs|].
  exact Hint.
Qed.

Lemma format_02d_digits (n : Z) :
  0 ≤ n → Forall (λ c, CharClass.digit c = true) (format_02d n).
Proof.
  intros Hn. unfold format_02d.
  destruct (Z.ltb_spec n 0); [lia|].
  destruct (length (decimal n) <? 2)%nat; [constructor; [done|]|];
    apply decimal_digits.
Qed.

(** X14: the time shown can be read back: for a number of seconds that
    is not negative, the digits before the colon are the minutes and the
    digits after it the seconds that remain, and together they give the
    number of seconds that was formatted. *)
Theorem format_time_reads_back (seconds : Z) :
  0 ≤ seconds →
  ∃ mm ss minutes secs,
    format_time seconds = mm ++ ":"%char :: ss
    ∧ Forall (λ c, CharClass.digit c = true) mm
    ∧ py_int mm = Some minutes
    ∧ py_int ss = Some secs
    ∧ 0 ≤ secs < 60
    ∧ 60 * minutes + secs = seconds.
Proof.
  intros Hs.
  pose proof (Z.mod_pos_bound seconds 60 ltac:(lia)).
  assert (0 ≤ seconds / 60) by (apply Z.div_pos; lia).
  exists (format_02d (seconds / 60)), (format_02d (seconds mod 60)),
    (seconds / 60), (seconds mod 60).
  split; [done|]. split; [by apply format_02d_digits|].
  split; [by apply py_int_format_02d|].
  split; [apply py_int_format_02d; lia|]. split; [done|].
  pose proof (Z.div_mod seconds 60). lia.
Qed.

Lemma format_time_reads_back_witness :
  ∃ mm ss minutes secs,
    format_time 8999 = mm ++ ":"%char :: ss
    ∧ Forall (λ c, CharClass.digit c = true) mm
    ∧ py_int mm = Some minutes
    ∧ py_int ss = Some secs
    ∧ 0 ≤ secs < 60
    ∧ 60 * minutes + secs = 8999.
Proof. apply (format_time_reads_back 8999). lia. Defined.

Lemma before_sep_app (sep : ascii) (s rest : str) :
  Forall (λ c, c ≠ sep) s → before_sep sep (s ++ sep :: rest) = s.
Proof.
  induction 1 as [|c s Hc _ IH]; simpl.
  - by rewrite Ascii.eqb_refl.
  - destruct (Ascii.eqb_spec c sep) as [->|_]; [done|]. by rewrite IH.
Qed.

Lemma replace_fuel_digits (fuel : nat) (new s : str) :
  Forall (λ c, CharClass.digit c = true) s →
  replace_fuel fuel (lit "Domain ") new s = s.
Proof.
  intros Hs. revert fuel.
  induction Hs as [|c s Hc _ IH]; intros [|fuel]; [done..|].
  change (lit "Domain ") with ("D"%char :: lit "omain ") in *.
  cbn [replace_fuel strip_prefix].
  destruct (Ascii.eqb_spec "D"%char c) as [<-|_]; [by vm_compute in Hc|].
  by rewrite IH.
Qed.

(** X15: the label of the domain selector gives back the domain number
    it was built from: [int(label.split(":")[0].replace("Domain ", ""))]
    is [i] for the label [f"Domain {i}: {name}"], whatever the name; the
    five labels of the selector exist and read 1 to 5 in this order. *)
Theorem selected_domain_number_round_trip (i : Z) (name : str) :
  0 ≤ i →
  selected_domain_number (domain_option i name) = Some i
  ∧ ∃ labels,
      domain_options = Some labels
      ∧ selected_domain_number <$> labels = Some <$> [1; 2; 3; 4; 5].
Proof.
  intros Hi. split.
  - unfold selected_domain_number, domain_option.
    destruct (decimal_digits i) as [Hdigits _].
    change (lit ": " ++ name) with (":"%char :: " "%char :: name).
    rewrite app_assoc, before_sep_app.
    2:{ apply Forall_app. split.
        - apply (bool_decide_unpack _). vm_compute. exact I.
        - eapply Forall_impl; [exact Hdigits|]. intros c Hc ->. done. }
    unfold replace. cbn [replace_fuel].
    rewrite (proj2 (strip_prefix_Some (lit "Domain ") _ (decimal i)) eq_refl).
    rewrite replace_fuel_digits by done. simpl.
    by apply py_int_decimal.
  - eexists. split; [vm_compute; reflexivity|]. vm_compute. reflexivity.
Qed.

Lemma selected_domain_number_round_trip_witness :
  selected_domain_number (domain_option 12 (lit "Some: name")) = Some 12
  ∧ ∃ labels,
      domain_options = Some labels
      ∧ selected_domain_number <$> labels = Some <$> [1; 2; 3; 4; 5].
Proof.
  apply (selected_domain_number_round_trip 12 (lit "Some: name")). lia.
Defined.

End Decimal.

(** ** The practice exam screen *)

Section PracticeExam.

Implicit Types (s : Session.t) (selected : option str).
Implicit Types (clicked : option practice_button).

Lemma selected_letter_of_cases selected :
  selected_letter_of selected = PyNone
  ∨ ∃ c rest, selected = Some (c :: rest)
              ∧ selected_letter_of selected = PyStr [c].
Proof. destruct selected as [[|c rest]|]; simpl; eauto. Qed.

Lemma selected_letter_of_truthy selected :
  selected_letter_of selected ≠ PyNone →
  truthy (selected_letter_of selected) = true.
Proof. by destruct selected as [[|c rest]|]. Qed.

Lemma current_question_in_range s :
  index_in_range s → is_Some (current_question s).
Proof.
  unfold index_in_range, current_question, py_index. intros Hi.
  rewrite decide_False, decide_True, decide_True by lia.
  apply lookup_lt_is_Some. lia.
Qed.

Lemma record_answer_in_range (a : answer) s :
  index_in_range s → truthy a = true → answers_in_range s →
  answers_in_range (record_answer a s).
Proof.
  unfold answers_in_range, record_answer, index_in_range. simpl.
  intros Hi Ha Hs k a'. rewrite lookup_insert.
  case_decide; [|by apply Hs]. subst. by intros [= <-].
Qed.

Lemma record_if_selected_in_range (a : answer) s :
  index_in_range s → answers_in_range s →
  answers_in_range (record_if_selected a s).
Proof.
  unfold record_if_selected. intros Hi Hs.
  destruct (truthy a) eqn:Ha; [by apply record_answer_in_range|done].
Qed.

Lemma answers_in_range_ext s s' :
  Session.user_answers s' = Session.user_answers s →
  Session.exam_questions s' = Session.exam_questions s →
  answers_in_range s → answers_in_range s'.
Proof. unfold answers_in_range. by intros -> ->. Qed.

Lemma record_if_selected_fields (a : answer) s :
  Session.current_question_index (record_if_selected a s)
  = Session.current_question_index s
  ∧ Session.exam_questions (record_if_selected a s)
    = Session.exam_questions s.
Proof. unfold record_if_selected. by destruct (truthy a). Qed.

(** Closes the goals left by a branch of a screen: the index, the answer
    map and the exam set of the new state. *)
Ltac screen_branch Hanswers :=
  eexists; split; [done|];
  split; [unfold index_in_range in *; simpl in *; lia|];
  split; [eapply answers_in_range_ext; [| |exact Hanswers]; done|done].

(** One run keeps the index and the answer map in range. *)
Lemma render_practice_exam_keeps s (remaining_time : Z) selected clicked :
  index_in_range s → answers_in_range s →
  ∃ s', render_practice_exam s remaining_time selected clicked = Some s'
        ∧ index_in_range s'
        ∧ answers_in_range s'
        ∧ Session.exam_questions s' = Session.exam_questions s.
Proof.
  intros Hi Ha. unfold render_practice_exam.
  destruct (decide (remaining_time ≤ 0)); [screen_branch Ha|].
  destruct (current_question_in_range s Hi) as [question ->].
  cbn [mbind option_bind].
  pose proof (record_if_selected_in_range (selected_letter_of selected) s Hi Ha)
    as Hsaved.
  destruct (record_if_selected_fields (selected_letter_of selected) s)
    as [Hidx Hexam].
  destruct clicked as [[| | |]|].
  - destruct (decide _); [|screen_branch Ha].
    eexists. split; [done|]. unfold index_in_range in *. simpl.
    rewrite Hexam. split; [lia|]. split; [|done].
    by eapply answers_in_range_ext; [| |exact Hsaved].
  - pose proof (selected_letter_of_truthy selected) as Htruthy.
    destruct (selected_letter_of selected) as [|l]; [screen_branch Ha|].
    pose proof (record_answer_in_range (PyStr l) s Hi (Htruthy ltac:(done)) Ha)
      as Hrecorded.
    destruct (decide _); screen_branch Hrecorded.
  - destruct (decide _); [|screen_branch Ha].
    eexists. split; [done|]. unfold index_in_range in *. simpl.
    rewrite Hexam. split; [lia|]. split; [|done].
    by eapply answers_in_range_ext; [| |exact Hsaved].
  - eexists. split; [done|]. unfold index_in_range in *. simpl.
    rewrite Hidx, Hexam. split; [done|]. split; [|done].
    by eapply answers_in_range_ext; [| |exact Hsaved].
  - screen_branch Ha.
Qed.

(** X16: on a practice exam whose index is a position of the exam set,
    a run of [render_practice_exam] raises nothing (no division by zero,
    no index out of range) whatever the timer, the radio and the buttons
    report; afterwards the index is still a position of the same exam
    set, and the answer map still holds letters at positions of it. *)
Theorem render_practice_exam_safe s (remaining_time : Z) selected clicked :
  index_in_range s → answers_in_range s →
  ∃ s', render_practice_exam s remaining_time selected clicked = Some s'
        ∧ index_in_range s'
        ∧ answers_in_range s'
        ∧ Session.exam_questions s' = Session.exam_questions s.
Proof. apply render_practice_exam_keeps. Qed.

Lemma session_example_in_range :
  index_in_range session_example ∧ answers_in_range session_example.
Proof.
  split; [by vm_compute|].
  intros k a Hk. unfold session_example, answers_B in Hk. simpl in Hk.
  apply lookup_insert_Some in Hk as [[<- <-]|[_ Hk]]; [by vm_compute|].
  by rewrite lookup_empty in Hk.
Qed.

Lemma render_practice_exam_safe_witness :
  ∃ s', render_practice_exam session_example 5400 (Some (lit "A. a"))
          (Some Submit) = Some s'
        ∧ index_in_range s'
        ∧ answers_in_range s'
        ∧ Session.exam_questions s' = Session.exam_questions session_example.
Proof.
  apply (render_practice_exam_safe session_example 5400 (Some (lit "A. a"))
           (Some Submit)); apply session_example_in_range.
Defined.

(** X17: a run of [render_practice_exam] writes the answer map at the
    current position only: every other position keeps its entry, and the
    entry of the current position either stays as it was or becomes the
    first character of the option the radio holds.  When the time is up
    the answer map is left as it is and the results are shown. *)
Theorem render_practice_exam_answers s (remaining_time : Z) selected clicked
    s' :
  render_practice_exam s remaining_time selected clicked = Some s' →
  (∀ k, k ≠ Session.current_question_index s →
        Session.user_answers s' !! k = Session.user_answers s !! k)
  ∧ (Session.user_answers s' = Session.user_answers s
     ∨ ∃ c rest, selected = Some (c :: rest)
                 ∧ Session.user_answers s'
                   = <[Session.current_question_index s := PyStr [c]]>
                       (Session.user_answers s))
  ∧ (if decide (remaining_time ≤ 0)
     then Session.user_answers s' = Session.user_answers s
          ∧ Session.show_results s' = true
     else True).
Proof.
  unfold render_practice_exam.
  destruct (decide (remaining_time ≤ 0)).
  { intros [= <-]. simpl. auto. }
  destruct (current_question s) as [question|]; [|done].
  cbn [mbind option_bind].
  assert (∀ t, Session.user_answers t
               = Session.user_answers
                   (record_if_selected (selected_letter_of selected) s) →
          (∀ k, k ≠ Session.current_question_index s →
                Session.user_answers t !! k = Session.user_answers s !! k)
          ∧ (Session.user_answers t = Session.user_answers s
             ∨ ∃ c rest, selected = Some (c :: rest)
                         ∧ Session.user_answers t
                           = <[Session.current_question_index s := PyStr [c]]>
                               (Session.user_answers s))
          ∧ True) as Hsaved.
  { intros t ->. unfold record_if_selected.
    destruct (selected_letter_of_cases selected)
      as [->|(c & rest & -> & Hletter)]; [by auto|].
    rewrite Hletter. simpl. split; [|split; [|done]].
    - intros k Hk. by rewrite lookup_insert_ne.
    - right. by exists c, rest. }
  destruct clicked as [[| | |]|].
  - destruct (decide _); intros [= <-]; [by apply Hsaved|by auto].
  - destruct (selected_letter_of_cases selected)
      as [->|(c & rest & -> & Hletter)]; [intros [= <-]; by auto|].
    rewrite Hletter.
    destruct (decide _); intros [= <-]; simpl;
      (split; [|split; [|done]];
       [intros k Hk; by rewrite lookup_insert_ne|right; by exists c, rest]).
  - destruct (decide _); intros [= <-]; [by apply Hsaved|by auto].
  - intros [= <-]. by apply Hsaved.
  - intros [= <-]. by auto.
Qed.

Lemma render_practice_exam_answers_witness :
  (∀ k, k ≠ Session.current_question_index session_example →
        Session.user_answers (Session.set_show_results true session_example)
          !! k
        = Session.user_answers session_example !! k)
  ∧ (Session.user_answers (Session.set_show_results true session_example)
     = Session.user_answers session_example
     ∨ ∃ c rest, Some (lit "A. a") = Some (c :: rest)
                 ∧ Session.user_answers
                     (Session.set_show_results true session_example)
                   = <[Session.current_question_index session_example
                       := PyStr [c]]>
                       (Session.user_answers session_example))
  ∧ (if decide (0 ≤ 0)
     then Session.user_answers (Session.set_show_results true session_example)
          = Session.user_answers session_example
          ∧ Session.show_results
              (Session.set_show_results true session_example) = true
     else True).
Proof.
  apply (render_practice_exam_answers session_example 0 (Some (lit "A. a"))
           (Some Next)).
  reflexivity.
Defined.

Lemma practice_exam_runs_keep s (inputs : list practice_input) :
  index_in_range s → answers_in_range s →
  ∃ s', practice_exam_runs s inputs = Some s'
        ∧ index_in_range s'
        ∧ answers_in_range s'
        ∧ Session.exam_questions s' = Session.exam_questions s.
Proof.
  revert s. induction inputs as [|input inputs IH]; intros s Hi Ha; simpl.
  { by exists s. }
  destruct (Session.show_results s); [by exists s|].
  destruct (render_practice_exam_keeps s (remaining_time input)
              (selected input) (clicked input) Hi Ha)
    as (s1 & -> & Hi1 & Ha1 & Hexam1).
  cbn [mbind option_bind].
  destruct (IH s1 Hi1 Ha1) as (s' & -> & Hi' & Ha' & Hexam').
  exists s'. by rewrite Hexam', Hexam1.
Qed.

(** X18: a practice exam started on a corpus that is not empty never
    raises: [start_practice_exam] returns a session on the first question
    of an exam that is not empty, with an empty answer map and a deadline
    150 minutes after the clock was read; and through any sequence of
    runs of the exam screen the index stays a position of that exam and
    the answer map holds letters at positions of it. *)
Theorem practice_exam_never_raises s (g : Random.state) (now1 now2 : Z)
    (inputs : list practice_input) :
  Session.questions s ≠ [] →
  ∃ s0 g' s',
    start_practice_exam s g now1 now2 = Some (s0, g')
    ∧ Session.current_question_index s0 = 0
    ∧ Session.user_answers s0 = ∅
    ∧ Session.exam_questions s0 ≠ []
    ∧ Session.exam_end_time s0 = Some (now2 + 9000000000)
    ∧ practice_exam_runs s0 inputs = Some s'
    ∧ index_in_range s'
    ∧ answers_in_range s'
    ∧ Session.exam_questions s' = Session.exam_questions s0.
Proof.
  intros Hne. unfold start_practice_exam.
  destruct (select_exam_questions_length (Session.questions s) g)
    as (exam & g' & -> & Hlen).
  cbn [mbind option_bind].
  assert (exam ≠ []) as Hexam.
  { intros ->. simpl in Hlen. symmetry in Hlen.
    apply exam_size_zero_iff, length_zero_iff_nil in Hlen. done. }
  match goal with
  | |- ∃ s0 g0 s', Some (?x, _) = Some (s0, g0) ∧ _ => set (start := x)
  end.
  destruct (practice_exam_runs_keep start inputs)
    as (final & Hruns & Hi & Ha & Hsame).
  - unfold index_in_range. simpl. destruct exam; [done|simpl; lia].
  - intros k a. simpl. by rewrite lookup_empty.
  - exists start, g', final. split_and!; done.
Qed.

Lemma practice_exam_never_raises_witness :
  ∃ s0 g' s',
    start_practice_exam session_example [4; 2]%nat 10 20 = Some (s0, g')
    ∧ Session.current_question_index s0 = 0
    ∧ Session.user_answers s0 = ∅
    ∧ Session.exam_questions s0 ≠ []
    ∧ Session.exam_end_time s0 = Some (20 + 9000000000)
    ∧ practice_exam_runs s0
        [ {| remaining_time := 9000; selected := Some (lit "B. b");
             clicked := Some Submit |};
          {| remaining_time := 0; selected := None; clicked := None |} ]
      = Some s'
    ∧ index_in_range s'
    ∧ answers_in_range s'
    ∧ Session.exam_questions s' = Session.exam_questions s0.
Proof.
  apply (practice_exam_never_raises session_example [4; 2]%nat 10 20).
  discriminate.
Defined.

End PracticeExam.

(** ** The study screen *)

Section StudyMode.

Implicit Types (s : Session.t) (selected : option str).
Implicit Types (clicked : option study_button).

Lemma current_question_index s :
  index_in_range s →
  current_question s
  = py_index (Session.exam_questions s) (Session.current_question_index s)
  ∧ is_Some (current_question s).
Proof.
  intros Hi. split; [|by apply current_question_in_range].
  unfold index_in_range in Hi. unfold current_question.
  by rewrite decide_False, decide_True by lia.
Qed.

(** The part of the screen below the question: leaving the session. *)
Lemma study_exit_keeps s clicked s' :
  study_session_ok s →
  (if Session.show_exit_confirm s then
     match clicked with
     | Some YesExit =>
         Some (Session.set_show_exit_confirm false
                 (Session.set_show_feedback false
                    (Session.set_mode Session.Main s)))
     | Some NoContinue => Some (Session.set_show_exit_confirm false s)
     | _ => Some s
     end
   else
     match clicked with
     | Some ReturnToMenu => Some (Session.set_show_exit_confirm true s)
     | _ => Some s
     end) = Some s' →
  index_in_range s' ∧ answers_in_range s'
  ∧ Session.exam_questions s' = Session.exam_questions s
  ∧ Session.user_answers s' = Session.user_answers s
  ∧ (Session.mode s' = Session.Main
     ∨ (answered_so_far s' ∧ feedback_matches_score s')).
Proof.
  intros (Hi & Ha & Hsofar & Hfb).
  destruct (Session.show_exit_confirm s), clicked as [[| | | | |]|];
    intros [= <-]; (split; [done|]); (split; [done|]);
    (split; [done|]); (split; [done|]); auto.
Qed.

(** One run keeps a study session in order, unless it leaves it. *)
Lemma render_study_mode_keeps s selected clicked :
  study_session_ok s →
  ∃ s', render_study_mode s selected clicked = Some s'
        ∧ index_in_range s' ∧ answers_in_range s'
        ∧ Session.exam_questions s' = Session.exam_questions s
        ∧ (∀ k a, Session.user_answers s !! k = Some a →
                  Session.user_answers s' !! k = Some a)
        ∧ (Session.mode s' = Session.Main
           ∨ (answered_so_far s' ∧ feedback_matches_score s')).
Proof.
  intros Hok. pose proof Hok as (Hi & Ha & Hsofar & Hfb).
  unfold render_study_mode.
  destruct (current_question_index s Hi) as [Hq [question Hquestion]].
  rewrite Hquestion. rewrite Hquestion in Hq. cbn [mbind option_bind].
  assert (∀ t, (if Session.show_exit_confirm s then
                  match clicked with
                  | Some YesExit =>
                      Some (Session.set_show_exit_confirm false
                              (Session.set_show_feedback false
                                 (Session.set_mode Session.Main s)))
                  | Some NoContinue =>
                      Some (Session.set_show_exit_confirm false s)
                  | _ => Some s
                  end
                else
                  match clicked with
                  | Some ReturnToMenu =>
                      Some (Session.set_show_exit_confirm true s)
                  | _ => Some s
                  end) = t →
          ∃ s', t = Some s'
                ∧ index_in_range s' ∧ answers_in_range s'
                ∧ Session.exam_questions s' = Session.exam_questions s
                ∧ (∀ k a, Session.user_answers s !! k = Some a →
                          Session.user_answers s' !! k = Some a)
                ∧ (Session.mode s' = Session.Main
                   ∨ (answered_so_far s' ∧ feedback_matches_score s')))
    as Hexit.
  { intros t Ht.
    assert (is_Some t) as [s' ->].
    { subst t. destruct (Session.show_exit_confirm s),
        clicked as [[| | | | |]|]; eauto. }
    destruct (study_exit_keeps s clicked s' Hok Ht)
      as (? & ? & ? & Hsame & ?).
    exists s'. split_and!; try done. by rewrite Hsame. }
  destruct (Session.show_feedback s) eqn:Hfeedback.
  - destruct (decide _) as [Hmore|Hlast].
    + destruct clicked as [[| | | | |]|]; try by apply Hexit.
      eexists. split; [done|].
      split; [unfold index_in_range in *; simpl; lia|].
      split; [done|]. split; [done|]. split; [done|]. right. split.
      * intros k Hk. simpl. left.
        destruct (Hsofar k Hk) as [?|[-> _]]; lia.
      * by intros [=].
    + destruct clicked as [[| | | | |]|]; try by apply Hexit.
      eexists. split; [done|]. split_and!; try done. right.
      split; [done|]. intros _. by apply Hfb.
  - destruct (selected_letter_of_cases selected)
      as [->|(c & rest & -> & Hletter)]; [by apply Hexit|].
    rewrite Hletter.
    destruct clicked as [[| | | | |]|]; try by apply Hexit.
    eexists. split; [done|].
    split; [done|].
    split; [by eapply answers_in_range_ext;
              [| |exact (record_answer_in_range (PyStr [c]) s Hi eq_refl Ha)]|].
    split; [done|]. split; [|right; split].
    + intros k a Hk. simpl. rewrite lookup_insert_ne; [done|].
      destruct (Hsofar k ltac:(eauto)) as [?|[_ ?]]; [lia|congruence].
    + intros k. simpl. rewrite lookup_insert.
      case_decide; [auto|]. intros Hk.
      destruct (Hsofar k Hk) as [?|[_ ?]]; [auto|congruence].
    + intros _. exists question. simpl. split; [done|].
      rewrite lookup_insert_eq. simpl.
      by rewrite study_is_correct_credited.
Qed.

Lemma session_example_study_ok : study_session_ok session_example.
Proof.
  destruct session_example_in_range as [Hi Ha].
  split; [done|]. split; [done|]. split; [|by intros [=]].
  intros k [a Hk]. left. unfold session_example, answers_B in Hk.
  simpl in Hk.
  apply lookup_insert_Some in Hk as [[<- _]|[_ Hk]]; [by vm_compute|].
  by rewrite lookup_empty in Hk.
Qed.

(** X19: in a study session that is in order, a run of
    [render_study_mode] raises nothing, whatever the radio and the
    buttons report, and leaves the index a position of the same exam set
    and the answer map with letters at positions of it. *)
Theorem render_study_mode_safe s selected clicked :
  study_session_ok s →
  ∃ s', render_study_mode s selected clicked = Some s'
        ∧ index_in_range s' ∧ answers_in_range s'
        ∧ Session.exam_questions s' = Session.exam_questions s.
Proof.
  intros Hok.
  destruct (render_study_mode_keeps s selected clicked Hok)
    as (s' & Hrun & ? & ? & ? & _).
  by exists s'.
Qed.

Lemma render_study_mode_safe_witness :
  ∃ s', render_study_mode session_example (Some (lit "B. b"))
          (Some StudySubmit) = Some s'
        ∧ index_in_range s' ∧ answers_in_range s'
        ∧ Session.exam_questions s' = Session.exam_questions session_example.
Proof.
  apply (render_study_mode_safe session_example (Some (lit "B. b"))
           (Some StudySubmit)).
  apply session_example_study_ok.
Defined.

(** X20: in study mode an answer, once recorded, is never changed: a run
    of [render_study_mode] keeps every entry of the answer map; and
    unless the run leaves for the main menu, the answered positions are
    those before the current one (and the current one while its feedback
    is shown), and the feedback shown for the current question is what
    [calculate_score] credits for it. *)
Theorem study_answers_are_final s selected clicked s' :
  study_session_ok s →
  render_study_mode s selected clicked = Some s' →
  (∀ k a, Session.user_answers s !! k = Some a →
          Session.user_answers s' !! k = Some a)
  ∧ (Session.mode s' = Session.Main
     ∨ (answered_so_far s' ∧ feedback_matches_score s')).
Proof.
  intros Hok Hrun.
  destruct (render_study_mode_keeps s selected clicked Hok)
    as (s'' & Hrun' & _ & _ & _ & Hkept & Hnext).
  rewrite Hrun in Hrun'. by injection Hrun' as ->.
Qed.

Lemma study_answers_are_final_witness :
  ∃ s',
    render_study_mode session_example (Some (lit "B. b")) (Some StudySubmit)
    = Some s'
    ∧ (∀ k a, Session.user_answers session_example !! k = Some a →
              Session.user_answers s' !! k = Some a)
    ∧ (Session.mode s' = Session.Main
       ∨ (answered_so_far s' ∧ feedback_matches_score s')).
Proof.
  eexists. split; [reflexivity|].
  apply (study_answers_are_final session_example (Some (lit "B. b"))
           (Some StudySubmit)).
  - apply session_example_study_ok.
  - reflexivity.
Defined.



End StudyMode.
